(** * Rope simulator: a mass-spring chain stepped by semi-implicit Euler

    Shallow embedding of [python/taichi/examples/simulation/rope_simulator.py].

    The program keeps four module-level Taichi fields of shape [n_particles]
    ([positions], [velocities], [forces], [inv_mass]) and three kernels that
    mutate them ([initialize_particles], [compute_forces], [integrate]);
    [main] drives the kernels from a window loop.

    Modelling decisions.
    - The fields hold [f32] values.  The kernels are written once over an
      interface [Scalar] of the arithmetic the source uses.  The interface is
      instantiated with IEEE-754 binary32 (round to nearest even: [SpecFloat]
      at precision 24 and maximal exponent 128), which evaluates, and with
      the real numbers, the arithmetic the kernels approximate.
    - A field is a list; [field[i]] reads with [!!!] and writes with
      [<[i:=v]>].  Every index the kernels use is below [n_particles].
    - The mutable globals become one record [State] threaded through the
      kernels.  A top-level [for] of a kernel runs in index order. *)

From Stdlib Require Import ZArith Bool Lia.
From Stdlib Require Import Reals Lra.
From Stdlib Require Import Floats.SpecFloat.
From stdpp Require Import base list.

(** ** Scalars *)

(** The arithmetic used by the kernels.  [lit n d] is the value of the
    decimal literal [n/d] ([lit 1 10] for [0.1]) and of an integer converted
    to the field type ([lit i 1]).  The kernels compare with [>] only; [fle],
    [is_zero] and [is_finite] serve to state properties. *)
Class Scalar (F : Type) := {
  lit : Z → positive → F;
  fneg : F → F;
  fadd : F → F → F;
  fsub : F → F → F;
  fmul : F → F → F;
  fdiv : F → F → F;
  fsqrt : F → F;
  fgt : F → F → bool;
  fle : F → F → bool;
  is_zero : F → bool;
  is_finite : F → bool
}.

Declare Scope F_scope.
Delimit Scope F_scope with sc.
Infix "+" := fadd : F_scope.
Infix "-" := fsub : F_scope.
Infix "*" := fmul : F_scope.
Infix "/" := fdiv : F_scope.
Infix ">?" := fgt : F_scope.
Infix "<=?" := fle : F_scope.
Notation "- x" := (fneg x) : F_scope.

Definition fzero {F} `{Scalar F} : F := lit 0 1.
Definition of_int {F} `{Scalar F} (i : nat) : F := lit (Z.of_nat i) 1.

(** Facts about comparison and subtraction that hold for binary32 and for
    the reals alike; [lit 1 1000000] is the threshold [1e-6] of the segment
    loop. *)
Class ScalarLaws (F : Type) `{Scalar F} : Prop := {
  gt_zero_zero : fgt (lit 0 1) (lit 0 1) = false;
  le_not_gt : ∀ x y : F, fle x y = true → fgt x y = false;
  gt_epsilon_nonzero : ∀ x : F, fgt x (lit 1 1000000) = true → is_zero x = false;
  sub_add_neg : ∀ x y : F, fsub x y = fadd x (fneg y)
}.

(** Facts about zero.  In binary32 a zero has a sign, [0 * x] is a zero
    only for a finite [x], and [x + 0 = x] fails for the negative zero alone;
    for the reals every number is finite and there is one zero. *)
Class ZeroLaws (F : Type) `{Scalar F} : Prop := {
  zero_is_zero : is_zero (lit 0 1) = true;
  sub_diag_zero : ∀ x : F, is_finite x = true → is_zero (fsub x x) = true;
  mul_zero_l : ∀ z x : F,
    is_zero z = true → is_finite x = true → is_zero (fmul z x) = true;
  mul_zero_r : ∀ x z : F,
    is_finite x = true → is_zero z = true → is_zero (fmul x z) = true;
  add_zeros : ∀ a b : F,
    is_zero a = true → is_zero b = true → is_zero (fadd a b) = true;
  sub_zeros : ∀ a b : F,
    is_zero a = true → is_zero b = true → is_zero (fsub a b) = true;
  zero_add_zero : ∀ z : F, is_zero z = true → fadd (lit 0 1) z = lit 0 1;
  add_any_zero : ∀ x z : F,
    is_zero z = true → fadd x (lit 0 1) = x → fadd x z = x
}.

(** ** Two-dimensional vectors ([ti.Vector]) *)

Record Vec2 (F : Type) := Vec { vx : F; vy : F }.
Arguments Vec {F} _ _.
Arguments vx {F} _.
Arguments vy {F} _.

Section Vectors.
Context {F : Type} `{Scalar F}.
Local Open Scope F_scope.

Definition vzero : Vec2 F := Vec fzero fzero.
Definition vadd (a b : Vec2 F) : Vec2 F := Vec (vx a + vx b) (vy a + vy b).
Definition vsub (a b : Vec2 F) : Vec2 F := Vec (vx a - vx b) (vy a - vy b).
Definition vneg (a : Vec2 F) : Vec2 F := Vec (- vx a) (- vy a).

(** [s * v], the scalar on the left. *)
Definition smul (s : F) (v : Vec2 F) : Vec2 F := Vec (s * vx v) (s * vy v).

(** [v * s] and [v / s], the scalar on the right. *)
Definition vmul (v : Vec2 F) (s : F) : Vec2 F := Vec (vx v * s) (vy v * s).
Definition vdiv (v : Vec2 F) (s : F) : Vec2 F := Vec (vx v / s) (vy v / s).

(** [a.dot(b)]: the entries of the entrywise product, summed from the first. *)
Definition dot (a b : Vec2 F) : F := vx a * vx b + vy a * vy b.

(** [v.norm()]: the square root of the sum of the squared entries. *)
Definition norm (v : Vec2 F) : F := fsqrt (vx v * vx v + vy v * vy v).

#[global] Instance Vec2_inhabited : Inhabited (Vec2 F) := populate vzero.
#[global] Instance F_inhabited : Inhabited F := populate fzero.

(** Division that fails on a zero divisor, to state that a kernel never
    divides by zero. *)
Definition fdiv_checked (x y : F) : option F :=
  if is_zero y then None else Some (x / y).
Definition vdiv_checked (v : Vec2 F) (s : F) : option (Vec2 F) :=
  x ← fdiv_checked (vx v) s; y ← fdiv_checked (vy v) s; Some (Vec x y).
End Vectors.

(** ** Simulation parameters and fields *)

(** The module-level parameters (lines 7 to 14 of the source). *)
Record Constants (F : Type) := {
  n_particles : nat;
  particle_mass : F;
  stiffness : F;
  damping : F;
  rest_length : F;
  gravity : Vec2 F;
  dt : F
}.
Arguments n_particles {F} _.
Arguments particle_mass {F} _.
Arguments stiffness {F} _.
Arguments damping {F} _.
Arguments rest_length {F} _.
Arguments gravity {F} _.
Arguments dt {F} _.

Definition n_segments {F} (c : Constants F) : nat := n_particles c - 1.

(** The values the source assigns. *)
Definition source_constants {F} `{Scalar F} : Constants F := {|
  n_particles := 15;
  particle_mass := lit 1 1;
  stiffness := lit 10000 1;
  damping := lit 5 10;
  rest_length := lit 1 10;
  gravity := Vec (lit 0 1) (fneg (lit 981 100));
  dt := lit 5 10000
|}.

(** Other settings of the parameters: a chain of [n] particles, and a chain
    without gravity. *)
Definition resized {F} (n : nat) (c : Constants F) : Constants F := {|
  n_particles := n;
  particle_mass := particle_mass c;
  stiffness := stiffness c;
  damping := damping c;
  rest_length := rest_length c;
  gravity := gravity c;
  dt := dt c
|}.
Definition weightless {F} `{Scalar F} (n : nat) : Constants F := {|
  n_particles := n;
  particle_mass := particle_mass source_constants;
  stiffness := stiffness source_constants;
  damping := damping source_constants;
  rest_length := rest_length source_constants;
  gravity := Vec (lit 0 1) (lit 0 1);
  dt := dt source_constants
|}.

(** The four fields. *)
Record State (F : Type) := {
  positions : list (Vec2 F);
  velocities : list (Vec2 F);
  forces : list (Vec2 F);
  inv_mass : list F
}.
Arguments positions {F} _.
Arguments velocities {F} _.
Arguments forces {F} _.
Arguments inv_mass {F} _.

(** Keys the window reports, and the kernels [main] launches. *)
Inductive Key := ESCAPE | SPACE | OTHER_KEY.
Inductive Launch := InitializeParticles | ComputeForces | Integrate.

(** What [main] holds between two frames: the fields, its locals [pause]
    and [window.running], and the kernels launched so far (a ghost trace). *)
Record World (F : Type) := {
  sim : State F;
  pause : bool;
  running : bool;
  launches : list Launch
}.
Arguments sim {F} _.
Arguments pause {F} _.
Arguments running {F} _.
Arguments launches {F} _.

Section Kernels.
Context {F : Type} `{Scalar F}.
Variable c : Constants F.
Local Open Scope F_scope.

Definition set_positions (f : list (Vec2 F) → list (Vec2 F)) (st : State F) : State F :=
  {| positions := f (positions st); velocities := velocities st;
     forces := forces st; inv_mass := inv_mass st |}.
Definition set_velocities (f : list (Vec2 F) → list (Vec2 F)) (st : State F) : State F :=
  {| positions := positions st; velocities := f (velocities st);
     forces := forces st; inv_mass := inv_mass st |}.
Definition set_forces (f : list (Vec2 F) → list (Vec2 F)) (st : State F) : State F :=
  {| positions := positions st; velocities := velocities st;
     forces := f (forces st); inv_mass := inv_mass st |}.
Definition set_inv_mass (f : list F → list F) (st : State F) : State F :=
  {| positions := positions st; velocities := velocities st;
     forces := forces st; inv_mass := f (inv_mass st) |}.

(** The fields as [ti.field] creates them: shape [n_particles], all zero. *)
Definition fresh_state : State F := {|
  positions := replicate (n_particles c) vzero;
  velocities := replicate (n_particles c) vzero;
  forces := replicate (n_particles c) vzero;
  inv_mass := replicate (n_particles c) fzero
|}.

(** The fields have the shape they were declared with. *)
Definition shaped (st : State F) : Prop :=
  length (positions st) = n_particles c ∧
  length (velocities st) = n_particles c ∧
  length (forces st) = n_particles c ∧
  length (inv_mass st) = n_particles c.

(** *** [initialize_particles] *)

Definition init_body (st : State F) (i : nat) : State F :=
  let start_pos := Vec (lit 1 10) (lit 8 10) in
  let st := set_positions
    <[i := vadd start_pos (Vec (of_int i * rest_length c) (lit 0 1))]> st in
  let st := set_velocities <[i := Vec (lit 0 1) (lit 0 1)]> st in
  if Nat.eqb i 0
  then set_inv_mass <[i := lit 0 1]> st
  else set_inv_mass <[i := lit 1 1 / particle_mass c]> st.

Definition initialize_particles (st : State F) : State F :=
  foldl init_body st (seq 0 (n_particles c)).

(** *** [compute_forces] *)

Definition clear_body (st : State F) (i : nat) : State F :=
  set_forces <[i := Vec (lit 0 1) (lit 0 1)]> st.

Definition gravity_body (st : State F) (i : nat) : State F :=
  if inv_mass st !!! i >? lit 0 1
  then set_forces
         <[i := vadd (forces st !!! i) (vmul (gravity c) (particle_mass c))]> st
  else st.

(** [forces[i] += v] and [forces[i] -= v]. *)
Definition forces_add (i : nat) (v : Vec2 F) (st : State F) : State F :=
  set_forces <[i := vadd (forces st !!! i) v]> st.
Definition forces_sub (i : nat) (v : Vec2 F) (st : State F) : State F :=
  set_forces <[i := vsub (forces st !!! i) v]> st.

(** The locals of iteration [i] of the segment loop. *)
Definition dist_vec (st : State F) (i : nat) : Vec2 F :=
  let pos_p1 := positions st !!! i in
  let pos_p2 := positions st !!! (i + 1)%nat in
  vsub pos_p2 pos_p1.
Definition current_length (st : State F) (i : nat) : F :=
  norm (dist_vec st i).
Definition direction_vec (st : State F) (i : nat) : Vec2 F :=
  vdiv (dist_vec st i) (current_length st i).
Definition spring_force_vec (st : State F) (i : nat) : Vec2 F :=
  let spring_force_magnitude :=
    stiffness c * (current_length st i - rest_length c) in
  smul spring_force_magnitude (direction_vec st i).
Definition damping_force_vec (st : State F) (i : nat) : Vec2 F :=
  let vel_p1 := velocities st !!! i in
  let vel_p2 := velocities st !!! (i + 1)%nat in
  let relative_velocity := vsub vel_p2 vel_p1 in
  let projected_relative_velocity :=
    dot relative_velocity (direction_vec st i) in
  let damping_force_magnitude := damping c * projected_relative_velocity in
  smul damping_force_magnitude (direction_vec st i).

Definition segment_body (st : State F) (i : nat) : State F :=
  let p1_idx := i in
  let p2_idx := (i + 1)%nat in
  if current_length st i >? lit 1 1000000
  then
    let st1 := forces_add p1_idx (spring_force_vec st i) st in
    let st2 := forces_sub p2_idx (spring_force_vec st i) st1 in
    let st3 := forces_add p1_idx (damping_force_vec st i) st2 in
    forces_sub p2_idx (damping_force_vec st i) st3
  else st.

Definition compute_forces (st : State F) : State F :=
  let st := foldl clear_body st (seq 0 (n_particles c)) in
  let st := foldl gravity_body st (seq 0 (n_particles c)) in
  foldl segment_body st (seq 0 (n_segments c)).

(** The segment loop once more, with the division of [dist_vec] by
    [current_length] failing on a zero divisor. *)
Definition segment_body_checked (st : State F) (i : nat) : option (State F) :=
  let p1_idx := i in
  let p2_idx := (i + 1)%nat in
  let pos_p1 := positions st !!! p1_idx in
  let pos_p2 := positions st !!! p2_idx in
  let dist_vec := vsub pos_p2 pos_p1 in
  let current_length := norm dist_vec in
  if current_length >? lit 1 1000000
  then
    direction_vec ← vdiv_checked dist_vec current_length;
    let spring_force_magnitude :=
      stiffness c * (current_length - rest_length c) in
    let spring_force_vec := smul spring_force_magnitude direction_vec in
    let st1 := forces_add p1_idx spring_force_vec st in
    let st2 := forces_sub p2_idx spring_force_vec st1 in
    let vel_p1 := velocities st !!! p1_idx in
    let vel_p2 := velocities st !!! p2_idx in
    let relative_velocity := vsub vel_p2 vel_p1 in
    let projected_relative_velocity := dot relative_velocity direction_vec in
    let damping_force_magnitude := damping c * projected_relative_velocity in
    let damping_force_vec := smul damping_force_magnitude direction_vec in
    let st3 := forces_add p1_idx damping_force_vec st2 in
    Some (forces_sub p2_idx damping_force_vec st3)
  else Some st.

Definition compute_forces_checked (st : State F) : option (State F) :=
  let st := foldl clear_body st (seq 0 (n_particles c)) in
  let st := foldl gravity_body st (seq 0 (n_particles c)) in
  foldl (λ acc i, st ← acc; segment_body_checked st i) (Some st)
        (seq 0 (n_segments c)).

(** *** [integrate] *)

Definition integrate_body (st : State F) (i : nat) : State F :=
  if inv_mass st !!! i >? lit 0 1
  then
    let st := set_velocities
      <[i := vadd (velocities st !!! i)
                  (vmul (vmul (forces st !!! i) (inv_mass st !!! i)) (dt c))]> st in
    set_positions
      <[i := vadd (positions st !!! i) (vmul (velocities st !!! i) (dt c))]> st
  else st.

Definition integrate (st : State F) : State F :=
  foldl integrate_body st (seq 0 (n_particles c)).

(** One substep: the two launches in the body of the substep loop. *)
Definition substep (st : State F) : State F := integrate (compute_forces st).

(** *** [main] *)

Definition launch (k : Launch) (f : State F → State F) (w : World F) : World F :=
  {| sim := f (sim w); pause := pause w; running := running w;
     launches := launches w ++ [k] |}.

Definition handle_event (w : World F) (e : Key) : World F :=
  match e with
  | ESCAPE => {| sim := sim w; pause := pause w; running := false;
                 launches := launches w |}
  | SPACE => {| sim := sim w; pause := negb (pause w); running := running w;
                launches := launches w |}
  | OTHER_KEY => w
  end.

Definition substep_body (w : World F) (_ : nat) : World F :=
  launch Integrate integrate (launch ComputeForces compute_forces w).

(** One turn of the [while] loop, given the key presses the window reports.
    Drawing reads [positions] and changes nothing. *)
Definition frame (w : World F) (events : list Key) : World F :=
  let w := foldl handle_event w events in
  if negb (pause w) then foldl substep_body w (seq 0 10) else w.

(** The [while window.running] loop over the frames of a session. *)
Fixpoint main_loop (w : World F) (frames : list (list Key)) : World F :=
  match frames with
  | [] => w
  | events :: frames' =>
      if running w then main_loop (frame w events) frames' else w
  end.

Definition main_start : World F :=
  launch InitializeParticles initialize_particles
    {| sim := fresh_state; pause := false; running := true; launches := [] |}.

Definition main (frames : list (list Key)) : World F :=
  main_loop main_start frames.

(** *** Vocabulary of the statements *)

(** Same positions, velocities and inverse masses. *)
Definition same_particles (st st' : State F) : Prop :=
  positions st' = positions st ∧
  velocities st' = velocities st ∧
  inv_mass st' = inv_mass st.

(** Same shape of every field. *)
Definition same_shape (st st' : State F) : Prop :=
  length (positions st') = length (positions st) ∧
  length (velocities st') = length (velocities st) ∧
  length (forces st') = length (forces st) ∧
  length (inv_mass st') = length (inv_mass st).

(** Particle 0 is in [st] as it is in [st0], and no inverse mass differs. *)
Definition first_particle_as (st0 st : State F) : Prop :=
  inv_mass st = inv_mass st0 ∧
  positions st !! 0 = positions st0 !! 0 ∧
  velocities st !! 0 = velocities st0 !! 0.

(** What the accumulator of particle [j] holds before the segment loop. *)
Definition gravity_term (st : State F) (j : nat) : Vec2 F :=
  if inv_mass st !!! j >? lit 0 1
  then vadd (Vec (lit 0 1) (lit 0 1)) (vmul (gravity c) (particle_mass c))
  else Vec (lit 0 1) (lit 0 1).

(** What segment [i] does to the accumulator of its first particle, and to
    that of its second particle. *)
Definition first_end (st : State F) (i : nat) (a : Vec2 F) : Vec2 F :=
  if current_length st i >? lit 1 1000000
  then vadd (vadd a (spring_force_vec st i)) (damping_force_vec st i)
  else a.
Definition second_end (st : State F) (i : nat) (a : Vec2 F) : Vec2 F :=
  if current_length st i >? lit 1 1000000
  then vsub (vsub a (spring_force_vec st i)) (damping_force_vec st i)
  else a.

(** Vectors of zeros and of finite numbers; numbers that adding zero leaves
    as they are (all but the negative zero of binary32). *)
Definition zero_vec (v : Vec2 F) : Prop :=
  is_zero (vx v) = true ∧ is_zero (vy v) = true.
Definition finite_vec (v : Vec2 F) : Prop :=
  is_finite (vx v) = true ∧ is_finite (vy v) = true.
Definition absorbs_zero (x : F) : Prop := x + lit 0 1 = x.

(** The numbers of a chain of two particles are finite, and no coordinate
    of the second particle is a negative zero. *)
Definition finite_pair (st : State F) : Prop :=
  is_finite (particle_mass c) = true ∧
  is_finite (stiffness c) = true ∧
  is_finite (damping c) = true ∧
  is_finite (rest_length c) = true ∧
  is_finite (dt c) = true ∧
  is_finite (inv_mass st !!! 1) = true ∧
  finite_vec (direction_vec st 0) ∧
  absorbs_zero (vx (positions st !!! 1)) ∧
  absorbs_zero (vy (positions st !!! 1)).

(** The segment update as the specification words it: both force vectors
    added to the accumulator of particle [i+1] and subtracted from that of
    particle [i]. *)
Definition spec_segment_update (st : State F) (i : nat) : Prop :=
  forces (segment_body st i) !!! (i + 1)%nat =
    vadd (vadd (forces st !!! (i + 1)%nat) (spring_force_vec st i))
         (damping_force_vec st i) ∧
  forces (segment_body st i) !!! i =
    vsub (vsub (forces st !!! i) (spring_force_vec st i))
         (damping_force_vec st i).
End Kernels.

(** ** The [f32] instance: IEEE-754 binary32 *)

Module Binary32.
Definition f32 : Type := spec_float.

(** A Python [float] literal is the nearest binary64 number; stored into an
    [f32] field or used in a kernel it is rounded once more, to binary32. *)
Definition f64_of_Z (z : Z) : spec_float := binary_normalize 53 1024 z 0 false.
Definition f64_to_f32 (x : spec_float) : f32 :=
  match x with
  | S754_finite s m e => binary_round 24 128 s m e
  | _ => x
  end.
Definition f32_lit (n : Z) (d : positive) : f32 :=
  f64_to_f32 (SFdiv 53 1024 (f64_of_Z n) (f64_of_Z (Zpos d))).

Definition f32_is_zero (x : f32) : bool :=
  match x with S754_zero _ => true | _ => false end.
Definition f32_is_finite (x : f32) : bool :=
  match x with S754_zero _ | S754_finite _ _ _ => true | _ => false end.

#[global] Instance f32_scalar : Scalar f32 := {|
  lit := f32_lit;
  fneg := SFopp;
  fadd := SFadd 24 128;
  fsub := SFsub 24 128;
  fmul := SFmul 24 128;
  fdiv := SFdiv 24 128;
  fsqrt := SFsqrt 24 128;
  fgt := λ x y, SFltb y x;
  fle := SFleb;
  is_zero := f32_is_zero;
  is_finite := f32_is_finite
|}.

(** The rope as [main] sets it up, and after the first frame. *)
Definition rope_initial : State f32 :=
  initialize_particles source_constants (fresh_state source_constants).
Definition rope_after_frame : State f32 :=
  Nat.iter 10 (substep source_constants) rope_initial.

(** The state in which the segment loop of the next force pass starts:
    accumulators cleared, gravity added. *)
Definition rope_before_segments : State f32 :=
  foldl (gravity_body source_constants)
    (foldl clear_body rope_after_frame (seq 0 15)) (seq 0 15).

(** The parameters of the source for a chain of two particles. *)
Definition pair_constants : Constants f32 := resized 2 source_constants.

(** Two particles at rest, [0.5] apart, the first one pinned; the
    accumulators as the segment loop finds them: cleared, gravity added. *)
Definition stretched_pair : State f32 := {|
  positions := [Vec (lit 0 1) (lit 0 1); Vec (lit 5 10) (lit 0 1)];
  velocities := [Vec (lit 0 1) (lit 0 1); Vec (lit 0 1) (lit 0 1)];
  forces := [Vec (lit 0 1) (lit 0 1); Vec (lit 0 1) (fneg (lit 981 100))];
  inv_mass := [lit 0 1; lit 1 1]
|}.

(** Two particles on the same spot, the second one free. *)
Definition coincident : State f32 := {|
  positions := [Vec (lit 1 10) (lit 8 10); Vec (lit 1 10) (lit 8 10)];
  velocities := [Vec (lit 0 1) (lit 0 1); Vec (lit 0 1) (lit 0 1)];
  forces := [Vec (lit 0 1) (lit 0 1); Vec (lit 0 1) (lit 0 1)];
  inv_mass := [lit 0 1; lit 1 1]
|}.

(** A chain of two particles without gravity, as [main] sets it up. *)
Definition pair_initial : State f32 :=
  initialize_particles (weightless 2) (fresh_state (weightless 2)).
End Binary32.

(** ** The real numbers as scalars *)

Module RealScalar.
Definition R_gt (x y : R) : bool := if Rlt_dec y x then true else false.
Definition R_le (x y : R) : bool := if Rle_dec x y then true else false.
Definition R_is_zero (x : R) : bool := if Req_dec_T x 0 then true else false.

#[global] Instance R_scalar : Scalar R := {|
  lit := λ n d, (IZR n / IZR (Zpos d))%R;
  fneg := Ropp;
  fadd := Rplus;
  fsub := Rminus;
  fmul := Rmult;
  fdiv := Rdiv;
  fsqrt := sqrt;
  fgt := R_gt;
  fle := R_le;
  is_zero := R_is_zero;
  is_finite := λ _, true
|}.
End RealScalar.

(** ** Vocabulary of the further properties *)

#[global] Instance Key_eq_dec : EqDecision Key.
Proof. solve_decision. Defined.

(** How often the space bar is among the key presses of a frame. *)
Definition space_presses (events : list Key) : nat :=
  length (filter (λ e, e = SPACE) events).

(** The sum of a field of vectors. *)
Definition vsum {F} `{Scalar F} (l : list (Vec2 F)) : Vec2 F :=
  foldr vadd vzero l.

Module RealRope.
(** Two particles one unit apart, the second one moving away, with real
    coordinates. *)
Definition stretched_real : State R := {|
  positions := [Vec (lit 0 1) (lit 0 1); Vec (lit 1 1) (lit 0 1)];
  velocities := [Vec (lit 0 1) (lit 0 1); Vec (lit 1 1) (lit 0 1)];
  forces := [Vec (lit 0 1) (lit 0 1); Vec (lit 0 1) (lit 0 1)];
  inv_mass := [lit 0 1; lit 1 1]
|}.

(** The parameters of the source for a chain of two particles. *)
Definition pair_constants_real : Constants R := resized 2 source_constants.
End RealRope.

(** Reading a field after writes to it. *)
Ltac read_field :=
  repeat first
    [ rewrite list_lookup_total_insert_eq by (rewrite ?length_insert; lia)
    | rewrite list_lookup_total_insert_ne by lia ].

(** * Properties *)

(** ** Loops over [range(n)] *)

Lemma foldl_seq_S {A} (f : A → nat → A) (a : A) (m : nat) :
  foldl f a (seq 0 (S m)) = f (foldl f a (seq 0 m)) m.
Proof. rewrite seq_S, foldl_app. reflexivity. Qed.

(** A property kept by every iteration holds after the loop. *)
Lemma foldl_seq_invariant {A} (P : A → Prop) (f : A → nat → A) (a : A) (m : nat) :
  P a → (∀ x i, i < m → P x → P (f x i)) → P (foldl f a (seq 0 m)).
Proof.
  intros Ha Hf. induction m as [|m IH]; [exact Ha|].
  rewrite foldl_seq_S. apply Hf; [lia|]. apply IH. intros x i Hi. apply Hf. lia.
Qed.

(** ** What the kernels leave alone *)

Section Frames.
Context {F : Type} `{Scalar F}.
Variable c : Constants F.

Lemma same_particles_refl (st : State F) : same_particles st st.
Proof. repeat split. Qed.

Lemma same_particles_trans (st1 st2 st3 : State F) :
  same_particles st1 st2 → same_particles st2 st3 → same_particles st1 st3.
Proof. intros (?&?&?) (?&?&?). repeat split; congruence. Qed.

Lemma loop_same_particles (body : State F → nat → State F) (st : State F) m :
  (∀ x i, same_particles x (body x i)) →
  same_particles st (foldl body st (seq 0 m)).
Proof.
  intros Hb. apply (foldl_seq_invariant (same_particles st));
    [apply same_particles_refl|].
  intros x i _ Hx. exact (same_particles_trans _ _ _ Hx (Hb x i)).
Qed.

Lemma clear_body_same (st : State F) i : same_particles st (clear_body st i).
Proof. repeat split. Qed.

Lemma gravity_body_same (st : State F) i : same_particles st (gravity_body c st i).
Proof. unfold gravity_body. destruct (fgt _ _); repeat split. Qed.

Lemma segment_body_same (st : State F) i : same_particles st (segment_body c st i).
Proof. unfold segment_body. destruct (fgt _ _); repeat split. Qed.

Lemma compute_forces_same (st : State F) : same_particles st (compute_forces c st).
Proof.
  unfold compute_forces.
  eapply same_particles_trans; [|apply loop_same_particles, segment_body_same].
  eapply same_particles_trans; [|apply loop_same_particles, gravity_body_same].
  apply loop_same_particles, clear_body_same.
Qed.

(** The locals of the segment loop read positions and velocities only. *)
Lemma current_length_same (st st' : State F) i :
  same_particles st st' → current_length st' i = current_length st i.
Proof. intros (Hp&_&_). unfold current_length, dist_vec. rewrite Hp. reflexivity. Qed.

Lemma spring_force_vec_same (st st' : State F) i :
  same_particles st st' → spring_force_vec c st' i = spring_force_vec c st i.
Proof.
  intros (Hp&_&_).
  unfold spring_force_vec, direction_vec, current_length, dist_vec.
  rewrite Hp. reflexivity.
Qed.

Lemma damping_force_vec_same (st st' : State F) i :
  same_particles st st' → damping_force_vec c st' i = damping_force_vec c st i.
Proof.
  intros (Hp&Hv&_).
  unfold damping_force_vec, direction_vec, current_length, dist_vec.
  rewrite Hp, Hv. reflexivity.
Qed.

Lemma first_end_same (st st' : State F) i a :
  same_particles st st' → first_end c st' i a = first_end c st i a.
Proof.
  intros Hs. unfold first_end.
  rewrite (current_length_same _ _ _ Hs), (spring_force_vec_same _ _ _ Hs),
    (damping_force_vec_same _ _ _ Hs). reflexivity.
Qed.

Lemma second_end_same (st st' : State F) i a :
  same_particles st st' → second_end c st' i a = second_end c st i a.
Proof.
  intros Hs. unfold second_end.
  rewrite (current_length_same _ _ _ Hs), (spring_force_vec_same _ _ _ Hs),
    (damping_force_vec_same _ _ _ Hs). reflexivity.
Qed.

(** Writes never change the shape of a field. *)
Lemma same_shape_refl (st : State F) : same_shape st st.
Proof. repeat split. Qed.

Lemma same_shape_trans (st1 st2 st3 : State F) :
  same_shape st1 st2 → same_shape st2 st3 → same_shape st1 st3.
Proof. intros (?&?&?&?) (?&?&?&?). repeat split; congruence. Qed.

Lemma same_shape_shaped (st st' : State F) :
  same_shape st st' → shaped c st → shaped c st'.
Proof. intros (?&?&?&?) (?&?&?&?). repeat split; congruence. Qed.

Lemma loop_shape (body : State F → nat → State F) (st : State F) m :
  (∀ x i, same_shape x (body x i)) → same_shape st (foldl body st (seq 0 m)).
Proof.
  intros Hb. apply (foldl_seq_invariant (same_shape st)); [apply same_shape_refl|].
  intros x i _ Hx. exact (same_shape_trans _ _ _ Hx (Hb x i)).
Qed.

Lemma segment_body_shape (st : State F) i : same_shape st (segment_body c st i).
Proof.
  unfold segment_body, forces_add, forces_sub.
  destruct (fgt _ _); repeat split; simpl.
  rewrite !length_insert. reflexivity.
Qed.

Lemma clear_body_shape (st : State F) i : same_shape st (clear_body st i).
Proof. repeat split; simpl. apply length_insert. Qed.

Lemma gravity_body_shape (st : State F) i : same_shape st (gravity_body c st i).
Proof.
  unfold gravity_body. destruct (fgt _ _); repeat split; simpl.
  apply length_insert.
Qed.

Lemma integrate_body_shape (st : State F) i : same_shape st (integrate_body c st i).
Proof.
  unfold integrate_body. destruct (fgt _ _); repeat split; simpl;
    apply length_insert.
Qed.

Lemma init_body_shape (st : State F) i : same_shape st (init_body c st i).
Proof.
  unfold init_body. destruct (Nat.eqb i 0); repeat split; simpl;
    apply length_insert.
Qed.

Lemma compute_forces_shape (st : State F) : same_shape st (compute_forces c st).
Proof.
  unfold compute_forces.
  eapply same_shape_trans; [|apply loop_shape, segment_body_shape].
  eapply same_shape_trans; [|apply loop_shape, gravity_body_shape].
  apply loop_shape, clear_body_shape.
Qed.

Lemma integrate_shape (st : State F) : same_shape st (integrate c st).
Proof. apply loop_shape, integrate_body_shape. Qed.

Lemma initialize_particles_shape (st : State F) :
  same_shape st (initialize_particles c st).
Proof. apply loop_shape, init_body_shape. Qed.

Lemma fresh_state_shaped : shaped c (fresh_state c).
Proof. repeat split; simpl; apply length_replicate. Qed.

(** ** One iteration of the segment loop *)

Lemma segment_body_lookup (st : State F) i j :
  i + 1 < length (forces st) →
  forces (segment_body c st i) !!! j =
    if decide (j = i) then first_end c st i (forces st !!! j)
    else if decide (j = i + 1) then second_end c st i (forces st !!! j)
    else forces st !!! j.
Proof.
  intros Hlen. unfold segment_body, first_end, second_end.
  destruct (fgt _ _).
  - unfold forces_add, forces_sub; simpl.
    destruct (decide (j = i)) as [->|Hji]; [read_field; reflexivity|].
    destruct (decide (j = i + 1)) as [->|Hji']; read_field; reflexivity.
  - repeat case_decide; reflexivity.
Qed.
End Frames.

(** ** The three loops of [compute_forces] *)

Section ForcePass.
Context {F : Type} `{Scalar F}.
Variable c : Constants F.

Lemma clear_loop_lookup (st : State F) m j :
  j < length (forces st) →
  forces (foldl clear_body st (seq 0 m)) !!! j =
    if decide (j < m) then Vec (lit 0 1) (lit 0 1) else forces st !!! j.
Proof.
  intros Hj. induction m as [|m IH].
  - rewrite decide_False by lia. reflexivity.
  - rewrite foldl_seq_S. unfold clear_body at 1; simpl.
    destruct (decide (j = m)) as [->|Hne].
    + rewrite list_lookup_total_insert_eq.
      * rewrite decide_True by lia. reflexivity.
      * destruct (loop_shape clear_body st m clear_body_shape) as (_&_&->&_). lia.
    + rewrite list_lookup_total_insert_ne by lia. rewrite IH. clear IH.
      repeat case_decide; try reflexivity; lia.
Qed.

Lemma gravity_loop_lookup (st : State F) m j :
  j < length (forces st) →
  forces (foldl (gravity_body c) st (seq 0 m)) !!! j =
    if decide (j < m)
    then (if fgt (inv_mass st !!! j) (lit 0 1)
          then vadd (forces st !!! j) (vmul (gravity c) (particle_mass c))
          else forces st !!! j)
    else forces st !!! j.
Proof.
  intros Hj. induction m as [|m IH].
  - rewrite decide_False by lia. reflexivity.
  - rewrite foldl_seq_S.
    pose proof (loop_same_particles (gravity_body c) st m (gravity_body_same c))
      as (_&_&Him).
    pose proof (loop_shape (gravity_body c) st m (gravity_body_shape c))
      as (_&_&Hlen&_).
    unfold gravity_body at 1. rewrite Him.
    destruct (decide (j = m)) as [->|Hne].
    + rewrite decide_True by lia. rewrite decide_False in IH by lia.
      destruct (fgt (inv_mass st !!! m) (lit 0 1)); simpl; [|exact IH].
      rewrite list_lookup_total_insert_eq by lia. rewrite IH. reflexivity.
    + transitivity (forces (foldl (gravity_body c) st (seq 0 m)) !!! j).
      { destruct (fgt (inv_mass st !!! m) (lit 0 1)); simpl; [|reflexivity].
        rewrite list_lookup_total_insert_ne by lia. reflexivity. }
      rewrite IH. clear IH. repeat case_decide; try reflexivity; lia.
Qed.

(** After the first [m] segments, the accumulator of particle [j] has
    received the second end of segment [j-1] and then the first end of
    segment [j], as far as these segments are among the first [m]. *)
Lemma segment_loop_lookup (st : State F) m j :
  m + 1 ≤ length (forces st) →
  forces (foldl (segment_body c) st (seq 0 m)) !!! j =
    (if decide (j < m) then first_end c st j else λ a, a)
      ((if decide (0 < j ∧ j - 1 < m) then second_end c st (j - 1) else λ a, a)
         (forces st !!! j)).
Proof.
  intros Hm. induction m as [|m IH].
  - rewrite decide_False by lia. rewrite decide_False by lia. reflexivity.
  - rewrite foldl_seq_S.
    pose proof (loop_same_particles (segment_body c) st m (segment_body_same c))
      as Hsame.
    pose proof (loop_shape (segment_body c) st m (segment_body_shape c))
      as (_&_&Hlen&_).
    rewrite segment_body_lookup by lia.
    rewrite (first_end_same c _ _ _ _ Hsame), (second_end_same c _ _ _ _ Hsame).
    rewrite IH by lia. clear IH.
    destruct (decide (j = m)) as [->|Hjm].
    + rewrite (decide_True (P := m < S m)) by lia.
      rewrite (decide_False (P := m < m)) by lia.
      repeat case_decide; try reflexivity; lia.
    + destruct (decide (j = m + 1)) as [->|Hjm'].
      * rewrite (decide_False (P := m + 1 < S m)) by lia.
        rewrite (decide_False (P := m + 1 < m)) by lia.
        rewrite (decide_False (P := 0 < m + 1 ∧ m + 1 - 1 < m)) by lia.
        rewrite (decide_True (P := 0 < m + 1 ∧ m + 1 - 1 < S m)) by lia.
        replace (m + 1 - 1) with m by lia. reflexivity.
      * repeat case_decide; try reflexivity; lia.
Qed.

(** The accumulator of every particle after the whole pass. *)
Lemma compute_forces_lookup (st : State F) j :
  shaped c st → j < n_particles c →
  forces (compute_forces c st) !!! j =
    (if decide (j + 1 < n_particles c) then first_end c st j else λ a, a)
      ((if decide (0 < j) then second_end c st (j - 1) else λ a, a)
         (gravity_term c st j)).
Proof.
  intros (Hp&Hv&Hf&Him) Hj. unfold compute_forces.
  set (st1 := foldl clear_body st (seq 0 (n_particles c))).
  set (st2 := foldl (gravity_body c) st1 (seq 0 (n_particles c))).
  assert (same_particles st st1) as Hs1
    by apply loop_same_particles, clear_body_same.
  assert (same_particles st st2) as Hs2.
  { eapply same_particles_trans; [exact Hs1|].
    apply loop_same_particles, gravity_body_same. }
  assert (length (forces st1) = n_particles c) as Hl1.
  { pose proof (loop_shape clear_body st (n_particles c) clear_body_shape)
      as (_&_&Hx&_). fold st1 in Hx. lia. }
  assert (length (forces st2) = n_particles c) as Hl2.
  { pose proof (loop_shape (gravity_body c) st1 (n_particles c)
                  (gravity_body_shape c)) as (_&_&Hx&_). fold st2 in Hx. lia. }
  rewrite segment_loop_lookup by (unfold n_segments; lia).
  assert (forces st2 !!! j = gravity_term c st j) as ->.
  { unfold st2. rewrite gravity_loop_lookup by lia.
    rewrite decide_True by lia.
    unfold st1 at 2 3. rewrite clear_loop_lookup by lia.
    rewrite decide_True by lia.
    destruct Hs1 as (_&_&->). reflexivity. }
  unfold n_segments.
  repeat case_decide;
    rewrite ?(first_end_same c _ _ _ _ Hs2), ?(second_end_same c _ _ _ _ Hs2);
    try reflexivity; lia.
Qed.

(** A segment that fails the length test changes no accumulator. *)
Lemma segment_body_skip (st : State F) i :
  fgt (current_length st i) (lit 1 1000000) = false → segment_body c st i = st.
Proof. intros Hgt. unfold segment_body. rewrite Hgt. reflexivity. Qed.
End ForcePass.

(** ** The loops of [integrate] and [initialize_particles] *)

Section ParticleLoops.
Context {F : Type} `{Scalar F}.
Variable c : Constants F.

Lemma integrate_body_frame (st : State F) i :
  forces (integrate_body c st i) = forces st ∧
  inv_mass (integrate_body c st i) = inv_mass st.
Proof. unfold integrate_body. destruct (fgt _ _); split; reflexivity. Qed.

Lemma integrate_loop_frame (st : State F) m :
  forces (foldl (integrate_body c) st (seq 0 m)) = forces st ∧
  inv_mass (foldl (integrate_body c) st (seq 0 m)) = inv_mass st.
Proof.
  apply (foldl_seq_invariant
           (λ x, forces x = forces st ∧ inv_mass x = inv_mass st)); [split; reflexivity|].
  intros x i _ [Hf Hm]. destruct (integrate_body_frame x i) as [-> ->].
  split; assumption.
Qed.

(** An iteration writes no particle but its own. *)
Lemma integrate_body_other (st : State F) i j :
  i ≠ j →
  velocities (integrate_body c st i) !! j = velocities st !! j ∧
  positions (integrate_body c st i) !! j = positions st !! j.
Proof.
  intros Hne. unfold integrate_body. destruct (fgt _ _); simpl; [|split; reflexivity].
  split; apply list_lookup_insert_ne; exact Hne.
Qed.

Lemma integrate_body_skip (st : State F) i :
  fgt (inv_mass st !!! i) (lit 0 1) = false → integrate_body c st i = st.
Proof. intros Hgt. unfold integrate_body. rewrite Hgt. reflexivity. Qed.

Lemma integrate_body_self (st : State F) i :
  i < length (velocities st) → i < length (positions st) →
  fgt (inv_mass st !!! i) (lit 0 1) = true →
  let v' := vadd (velocities st !!! i)
                 (vmul (vmul (forces st !!! i) (inv_mass st !!! i)) (dt c)) in
  velocities (integrate_body c st i) !! i = Some v' ∧
  positions (integrate_body c st i) !! i =
    Some (vadd (positions st !!! i) (vmul v' (dt c))).
Proof.
  intros Hlv Hlp Hgt v'. unfold integrate_body. rewrite Hgt. simpl.
  rewrite list_lookup_total_insert_eq by lia.
  rewrite !list_lookup_insert_eq by lia. split; reflexivity.
Qed.

(** A particle that fails the test [inv_mass[j] > 0] is never written. *)
Lemma integrate_loop_untouched (st : State F) m j :
  fgt (inv_mass st !!! j) (lit 0 1) = false →
  velocities (foldl (integrate_body c) st (seq 0 m)) !! j = velocities st !! j ∧
  positions (foldl (integrate_body c) st (seq 0 m)) !! j = positions st !! j.
Proof.
  intros Hgt. induction m as [|m [IHv IHp]]; [split; reflexivity|].
  rewrite foldl_seq_S. destruct (decide (m = j)) as [->|Hne].
  - rewrite integrate_body_skip; [split; assumption|].
    destruct (integrate_loop_frame st j) as [_ ->]. exact Hgt.
  - destruct (integrate_body_other (foldl (integrate_body c) st (seq 0 m)) m j Hne)
      as [-> ->]. split; assumption.
Qed.

(** Iterations at or beyond [j] have not run yet. *)
Lemma integrate_loop_later (st : State F) m j :
  m ≤ j →
  velocities (foldl (integrate_body c) st (seq 0 m)) !! j = velocities st !! j ∧
  positions (foldl (integrate_body c) st (seq 0 m)) !! j = positions st !! j.
Proof.
  intros Hle. induction m as [|m IH]; [split; reflexivity|].
  rewrite foldl_seq_S.
  destruct (integrate_body_other (foldl (integrate_body c) st (seq 0 m)) m j)
    as [-> ->]; [lia|]. apply IH. lia.
Qed.

(** A particle that passes the test is advanced once, its velocity first. *)
Lemma integrate_loop_updated (st : State F) m j :
  j < m → j < length (velocities st) → j < length (positions st) →
  fgt (inv_mass st !!! j) (lit 0 1) = true →
  let v' := vadd (velocities st !!! j)
                 (vmul (vmul (forces st !!! j) (inv_mass st !!! j)) (dt c)) in
  velocities (foldl (integrate_body c) st (seq 0 m)) !! j = Some v' ∧
  positions (foldl (integrate_body c) st (seq 0 m)) !! j =
    Some (vadd (positions st !!! j) (vmul v' (dt c))).
Proof.
  intros Hjm Hlv Hlp Hgt v'. induction m as [|m IH]; [lia|].
  rewrite foldl_seq_S. destruct (decide (m = j)) as [->|Hne].
  - clear IH.
    destruct (integrate_loop_frame st j) as [Hf Hm].
    destruct (integrate_loop_later st j j (le_n j)) as [Hv Hp].
    pose proof (loop_shape (integrate_body c) st j (integrate_body_shape c))
      as (Hlp'&Hlv'&_&_).
    destruct (integrate_body_self (foldl (integrate_body c) st (seq 0 j)) j)
      as [-> ->]; [lia|lia|rewrite Hm; exact Hgt|].
    rewrite Hf, Hm. rewrite !list_lookup_total_alt, Hv, Hp.
    rewrite <- !list_lookup_total_alt. split; reflexivity.
  - destruct (integrate_body_other (foldl (integrate_body c) st (seq 0 m)) m j Hne)
      as [-> ->]. apply IH. lia.
Qed.

Lemma init_body_other (st : State F) i j :
  i ≠ j →
  positions (init_body c st i) !! j = positions st !! j ∧
  velocities (init_body c st i) !! j = velocities st !! j ∧
  inv_mass (init_body c st i) !! j = inv_mass st !! j.
Proof.
  intros Hne. unfold init_body. destruct (Nat.eqb i 0); simpl;
    repeat split; apply list_lookup_insert_ne; exact Hne.
Qed.

Lemma init_body_self (st : State F) j :
  j < length (positions st) → j < length (velocities st) →
  j < length (inv_mass st) →
  positions (init_body c st j) !! j =
    Some (vadd (Vec (lit 1 10) (lit 8 10))
               (Vec (fmul (of_int j) (rest_length c)) (lit 0 1))) ∧
  velocities (init_body c st j) !! j = Some (Vec (lit 0 1) (lit 0 1)) ∧
  inv_mass (init_body c st j) !! j =
    Some (if decide (j = 0) then lit 0 1 else fdiv (lit 1 1) (particle_mass c)).
Proof.
  intros Hlp Hlv Hlm. unfold init_body.
  destruct (Nat.eqb_spec j 0) as [->|Hj];
    cbn [positions velocities inv_mass set_positions set_velocities set_inv_mass];
    [rewrite decide_True by reflexivity|rewrite decide_False by assumption];
    rewrite !list_lookup_insert_eq by assumption; repeat split; reflexivity.
Qed.

Lemma init_loop_lookup (st : State F) m j :
  j < m → j < length (positions st) → j < length (velocities st) →
  j < length (inv_mass st) →
  positions (foldl (init_body c) st (seq 0 m)) !! j =
    Some (vadd (Vec (lit 1 10) (lit 8 10))
               (Vec (fmul (of_int j) (rest_length c)) (lit 0 1))) ∧
  velocities (foldl (init_body c) st (seq 0 m)) !! j =
    Some (Vec (lit 0 1) (lit 0 1)) ∧
  inv_mass (foldl (init_body c) st (seq 0 m)) !! j =
    Some (if decide (j = 0) then lit 0 1 else fdiv (lit 1 1) (particle_mass c)).
Proof.
  intros Hjm Hlp Hlv Hlm. induction m as [|m IH]; [lia|].
  rewrite foldl_seq_S. destruct (decide (m = j)) as [->|Hne].
  - clear IH.
    pose proof (loop_shape (init_body c) st j (init_body_shape c))
      as (Hlp'&Hlv'&_&Hlm').
    apply init_body_self; lia.
  - destruct (init_body_other (foldl (init_body c) st (seq 0 m)) m j Hne)
      as (->&->&->). apply IH. lia.
Qed.
End ParticleLoops.

(** ** Both instances satisfy the laws *)

(** The literals of the source as binary32 numbers [m * 2^e]: [0.1], [0.8],
    [1e-6], [0.0005], [9.81] and [10000.0]. *)
Example f32_literals :
  (lit 1 10 : Binary32.f32) = S754_finite false 13421773 (-27) ∧
  (lit 8 10 : Binary32.f32) = S754_finite false 13421773 (-24) ∧
  (lit 1 1000000 : Binary32.f32) = S754_finite false 8796093 (-43) ∧
  (lit 5 10000 : Binary32.f32) = S754_finite false 8589935 (-34) ∧
  (lit 981 100 : Binary32.f32) = S754_finite false 10286531 (-20) ∧
  (lit 10000 1 : Binary32.f32) = S754_finite false 10240000 (-10).
Proof. vm_compute. repeat split. Qed.

Lemma SFcompare_swap (x y : spec_float) :
  SFcompare y x = option_map CompOpp (SFcompare x y).
Proof.
  destruct x as [sx|sx| |sx mx ex], y as [sy|sy| |sy my ey]; simpl;
    try reflexivity;
    try (destruct sx; reflexivity); try (destruct sy; reflexivity);
    try (destruct sx, sy; reflexivity).
  destruct sx, sy; simpl; try reflexivity; f_equal;
    rewrite (Z.compare_antisym ex ey); destruct (ex ?= ey)%Z; simpl;
    try reflexivity;
    pose proof (Pos.compare_cont_antisym mx my Eq) as Ha; simpl in Ha;
    rewrite <- Ha; destruct (Pos.compare_cont Eq mx my); reflexivity.
Qed.

Lemma f32_le_not_gt (x y : Binary32.f32) : SFleb x y = true → SFltb y x = false.
Proof.
  unfold SFleb, SFltb. rewrite (SFcompare_swap x y).
  destruct (SFcompare x y) as [[]|]; simpl; congruence.
Qed.

Lemma f32_sub_add_neg (x y : Binary32.f32) :
  SFsub 24 128 x y = SFadd 24 128 x (SFopp y).
Proof.
  destruct x as [sx|sx| |sx mx ex], y as [sy|sy| |sy my ey]; simpl;
    try reflexivity;
    destruct sx, sy; reflexivity.
Qed.

Lemma f32_laws : ScalarLaws Binary32.f32.
Proof.
  split.
  - reflexivity.
  - intros x y. exact (f32_le_not_gt x y).
  - intros x Hx. destruct x; try reflexivity. vm_compute in Hx. discriminate.
  - exact f32_sub_add_neg.
Qed.

Lemma R_laws : ScalarLaws R.
Proof.
  split; simpl.
  - unfold RealScalar.R_gt. destruct (Rlt_dec _ _) as [Hlt|_]; [lra|reflexivity].
  - intros x y. unfold RealScalar.R_le, RealScalar.R_gt.
    destruct (Rle_dec x y), (Rlt_dec y x); try reflexivity; try discriminate. lra.
  - intros x. unfold RealScalar.R_gt, RealScalar.R_is_zero.
    destruct (Rlt_dec _ x) as [Hlt|], (Req_dec_T x 0) as [->|];
      try reflexivity; try discriminate.
    intros _. exfalso. lra.
  - reflexivity.
Qed.

Lemma f32_zero_laws : ZeroLaws Binary32.f32.
Proof.
  split.
  - reflexivity.
  - intros [sx|sx| |sx mx ex] Hx; try discriminate Hx; simpl.
    + destruct sx; reflexivity.
    + rewrite Z.sub_diag. reflexivity.
  - intros [sz|sz| |sz mz ez] [sx|sx| |sx mx ex] Hz Hx;
      try discriminate Hz; try discriminate Hx; reflexivity.
  - intros [sx|sx| |sx mx ex] [sz|sz| |sz mz ez] Hx Hz;
      try discriminate Hz; try discriminate Hx; reflexivity.
  - intros [sa|sa| |sa ma ea] [sb|sb| |sb mb eb] Ha Hb;
      try discriminate Ha; try discriminate Hb. destruct sa, sb; reflexivity.
  - intros [sa|sa| |sa ma ea] [sb|sb| |sb mb eb] Ha Hb;
      try discriminate Ha; try discriminate Hb. destruct sa, sb; reflexivity.
  - intros [sz|sz| |sz mz ez] Hz; try discriminate Hz. destruct sz; reflexivity.
  - intros x [sz|sz| |sz mz ez] Hz Hx; try discriminate Hz.
    destruct sz; [|exact Hx].
    destruct x as [sx|sx| |sx mx ex]; try reflexivity.
    destruct sx; [reflexivity|exact Hx].
Qed.

Lemma R_is_zero_true (x : R) : RealScalar.R_is_zero x = true ↔ x = 0%R.
Proof.
  unfold RealScalar.R_is_zero. destruct (Req_dec_T x 0); split; intros;
    try reflexivity; try assumption; try discriminate; contradiction.
Qed.

Lemma R_zero_laws : ZeroLaws R.
Proof.
  split; simpl.
  - apply R_is_zero_true. lra.
  - intros x _. apply R_is_zero_true. lra.
  - intros z x Hz _. apply R_is_zero_true in Hz. apply R_is_zero_true.
    subst z. lra.
  - intros x z _ Hz. apply R_is_zero_true in Hz. apply R_is_zero_true.
    subst z. lra.
  - intros a b Ha Hb. apply R_is_zero_true in Ha, Hb. apply R_is_zero_true. lra.
  - intros a b Ha Hb. apply R_is_zero_true in Ha, Hb. apply R_is_zero_true. lra.
  - intros z Hz. apply R_is_zero_true in Hz. lra.
  - intros x z Hz _. apply R_is_zero_true in Hz. lra.
Qed.

(** ** The force pass, segment by segment *)

(** C1, as the specification words it, fails.  Take two particles at rest,
    [0.5] apart on the horizontal axis, with the parameters of the source:
    the segment is longer than the threshold, [u = (1, 0)], the spring force
    vector is [(4000, 0)] and the damping force vector is zero.  The
    iteration leaves [(4000, 0)] in the accumulator of particle 0 and
    [(-4000, -9.81)] in that of particle 1: it has added the vectors to the
    first and subtracted them from the second, not the other way round. *)
Lemma spec_segment_update_fails :
  fgt (current_length Binary32.stretched_pair 0) (lit 1 1000000) = true ∧
  spring_force_vec Binary32.pair_constants Binary32.stretched_pair 0 =
    Vec (lit 4000 1) (lit 0 1) ∧
  forces (segment_body Binary32.pair_constants Binary32.stretched_pair 0) =
    [Vec (lit 4000 1) (lit 0 1); Vec (fneg (lit 4000 1)) (fneg (lit 981 100))] ∧
  ¬ spec_segment_update Binary32.pair_constants Binary32.stretched_pair 0.
Proof.
  split; [vm_compute; reflexivity|]. split; [vm_compute; reflexivity|].
  split; [vm_compute; reflexivity|].
  intros [H1 _]. revert H1. vm_compute. discriminate.
Qed.

(** The same on a state the program reaches: the rope of the source after
    its first frame, at the start of the segment loop of the next pass. *)
Lemma spec_segment_update_fails_on_rope :
  fgt (current_length Binary32.rope_before_segments 0) (lit 1 1000000) = true ∧
  ¬ spec_segment_update source_constants Binary32.rope_before_segments 0.
Proof.
  split; [vm_compute; reflexivity|].
  intros [H1 _]. revert H1. vm_compute. discriminate.
Qed.

(** C1 (amended): in a force pass, for every segment [(i, i+1)] whose length
    exceeds the threshold, the spring force vector
    [(stiffness * (L - rest_length)) * u] and the damping force vector
    [(damping * (v_rel . u)) * u] are each added to the accumulator of
    particle [i] and subtracted from that of particle [i+1].  Before that the
    accumulator of particle [i] holds its gravity term and what segment
    [(i-1, i)] left there; after it, segment [(i+1, i+2)] adds its own
    vectors to the accumulator of particle [i+1]. *)
Theorem compute_forces_segment {F : Type} `{Scalar F}
    (c : Constants F) (st : State F) (i : nat) :
  shaped c st →
  i + 1 < n_particles c →
  fgt (current_length st i) (lit 1 1000000) = true →
  spring_force_vec c st i =
    smul (fmul (stiffness c) (fsub (current_length st i) (rest_length c)))
         (vdiv (dist_vec st i) (current_length st i)) ∧
  damping_force_vec c st i =
    smul (fmul (damping c)
            (dot (vsub (velocities st !!! (i + 1)) (velocities st !!! i))
                 (vdiv (dist_vec st i) (current_length st i))))
         (vdiv (dist_vec st i) (current_length st i)) ∧
  forces (compute_forces c st) !!! i =
    vadd (vadd (if decide (0 < i)
                then second_end c st (i - 1) (gravity_term c st i)
                else gravity_term c st i)
               (spring_force_vec c st i))
         (damping_force_vec c st i) ∧
  forces (compute_forces c st) !!! (i + 1) =
    (if decide (i + 2 < n_particles c) then first_end c st (i + 1) else λ a, a)
      (vsub (vsub (gravity_term c st (i + 1)) (spring_force_vec c st i))
            (damping_force_vec c st i)).
Proof.
  intros Hshape Hi Hgt. split; [reflexivity|]. split; [reflexivity|]. split.
  - rewrite compute_forces_lookup by (assumption || lia).
    rewrite decide_True by lia. unfold first_end at 1. rewrite Hgt.
    case_decide; reflexivity.
  - rewrite compute_forces_lookup by (assumption || lia).
    rewrite (decide_True (P := 0 < i + 1)) by lia.
    replace (i + 1 - 1) with i by lia. replace (i + 1 + 1) with (i + 2) by lia.
    unfold second_end. rewrite Hgt. reflexivity.
Qed.

Lemma compute_forces_segment_witness :
  shaped Binary32.pair_constants Binary32.stretched_pair ∧
  0 + 1 < n_particles Binary32.pair_constants ∧
  fgt (current_length Binary32.stretched_pair 0) (lit 1 1000000) = true ∧
  forces (compute_forces Binary32.pair_constants Binary32.stretched_pair) !!! 0 =
    vadd (vadd (if decide (0 < 0)
                then second_end Binary32.pair_constants Binary32.stretched_pair
                       (0 - 1)
                       (gravity_term Binary32.pair_constants Binary32.stretched_pair 0)
                else gravity_term Binary32.pair_constants Binary32.stretched_pair 0)
               (spring_force_vec Binary32.pair_constants Binary32.stretched_pair 0))
         (damping_force_vec Binary32.pair_constants Binary32.stretched_pair 0).
Proof.
  assert (shaped Binary32.pair_constants Binary32.stretched_pair) as Hs
    by (split; [|split; [|split]]; vm_compute; reflexivity).
  assert (0 + 1 < n_particles Binary32.pair_constants) as Hi
    by (vm_compute; lia).
  assert (fgt (current_length Binary32.stretched_pair 0) (lit 1 1000000) = true)
    as Hg by (vm_compute; reflexivity).
  destruct (compute_forces_segment Binary32.pair_constants Binary32.stretched_pair 0
              Hs Hi Hg) as (_&_&Hc&_).
  exact (conj Hs (conj Hi (conj Hg Hc))).
Defined.

(** C3: in a force pass, the iteration of a segment [(i, i+1)] whose length
    exceeds the threshold adds to the accumulator of particle [i+1] the exact
    negation of each vector it adds to the accumulator of particle [i]: the
    spring force vector, then the damping force vector.  Gravity takes no part
    in it. *)
Theorem segment_forces_opposite {F : Type} `{ScalarLaws F}
    (c : Constants F) (st : State F) (i : nat) :
  i + 1 < length (forces st) →
  fgt (current_length st i) (lit 1 1000000) = true →
  forces (segment_body c st i) !!! i =
    vadd (vadd (forces st !!! i) (spring_force_vec c st i))
         (damping_force_vec c st i) ∧
  forces (segment_body c st i) !!! (i + 1) =
    vadd (vadd (forces st !!! (i + 1)) (vneg (spring_force_vec c st i)))
         (vneg (damping_force_vec c st i)) ∧
  ∀ j, j ≠ i → j ≠ i + 1 → forces (segment_body c st i) !!! j = forces st !!! j.
Proof.
  intros Hlen Hgt. repeat split.
  - rewrite segment_body_lookup by lia. rewrite decide_True by reflexivity.
    unfold first_end. rewrite Hgt. reflexivity.
  - rewrite segment_body_lookup by lia. rewrite decide_False by lia.
    rewrite decide_True by reflexivity. unfold second_end. rewrite Hgt.
    unfold vsub, vadd, vneg; simpl. rewrite !sub_add_neg. reflexivity.
  - intros j Hj Hj'. rewrite segment_body_lookup by lia.
    rewrite decide_False by lia. rewrite decide_False by lia. reflexivity.
Qed.

Lemma segment_forces_opposite_witness :
  0 + 1 < length (forces Binary32.stretched_pair) ∧
  fgt (current_length Binary32.stretched_pair 0) (lit 1 1000000) = true ∧
  forces (segment_body Binary32.pair_constants Binary32.stretched_pair 0) !!! (0 + 1) =
    vadd (vadd (forces Binary32.stretched_pair !!! (0 + 1))
               (vneg (spring_force_vec Binary32.pair_constants Binary32.stretched_pair 0)))
         (vneg (damping_force_vec Binary32.pair_constants Binary32.stretched_pair 0)).
Proof.
  assert (0 + 1 < length (forces Binary32.stretched_pair)) as Hl
    by (vm_compute; lia).
  assert (fgt (current_length Binary32.stretched_pair 0) (lit 1 1000000) = true)
    as Hg by (vm_compute; reflexivity).
  destruct (segment_forces_opposite (H0 := f32_laws) Binary32.pair_constants
              Binary32.stretched_pair 0 Hl Hg) as (_&Hc&_).
  exact (conj Hl (conj Hg Hc)).
Defined.

(** ** The guard of the segment loop *)

Section Guard.
Context {F : Type} `{ScalarLaws F}.
Variable c : Constants F.

(** Behind the guard the divisor is not zero, so the checked iteration does
    what the iteration does. *)
Lemma segment_body_checked_ok (st : State F) i :
  segment_body_checked c st i = Some (segment_body c st i).
Proof.
  unfold segment_body_checked, segment_body.
  change (norm (vsub (positions st !!! (i + 1)) (positions st !!! i)))
    with (current_length st i).
  destruct (fgt (current_length st i) (lit 1 1000000)) eqn:Hgt; [|reflexivity].
  unfold vdiv_checked, fdiv_checked.
  rewrite (gt_epsilon_nonzero _ Hgt). reflexivity.
Qed.

Lemma segment_loop_checked_ok (st : State F) m :
  foldl (λ acc i, st ← acc; segment_body_checked c st i) (Some st) (seq 0 m) =
  Some (foldl (segment_body c) st (seq 0 m)).
Proof.
  induction m as [|m IH]; [reflexivity|].
  rewrite !foldl_seq_S, IH. simpl. apply segment_body_checked_ok.
Qed.

Lemma compute_forces_checked_ok (st : State F) :
  compute_forces_checked c st = Some (compute_forces c st).
Proof. unfold compute_forces_checked, compute_forces. apply segment_loop_checked_ok. Qed.

(** A segment at most [1e-6] long, or of length zero, fails the test. *)
Lemma degenerate_fails_test (x : F) :
  fle x (lit 1 1000000) = true ∨ is_zero x = true →
  fgt x (lit 1 1000000) = false.
Proof.
  intros [Hle|Hz]; [exact (le_not_gt _ _ Hle)|].
  destruct (fgt x (lit 1 1000000)) eqn:Hgt; [|reflexivity].
  rewrite (gt_epsilon_nonzero _ Hgt) in Hz. discriminate.
Qed.
End Guard.

(** C4: if the length [L] of segment [(i, i+1)] satisfies [L <= 1e-6], or is
    zero (two coincident particles), then the force pass does not fail with a
    division by zero, the iteration of the segment performs no division and
    changes nothing, whatever the accumulators hold, and after the pass the
    accumulators of particles [i] and [i+1] hold nothing from this segment:
    only the gravity terms and what the two neighbouring segments add. *)
Theorem degenerate_segment_skipped {F : Type} `{ScalarLaws F}
    (c : Constants F) (st : State F) (i : nat) :
  shaped c st →
  i + 1 < n_particles c →
  fle (current_length st i) (lit 1 1000000) = true ∨
    is_zero (current_length st i) = true →
  compute_forces_checked c st = Some (compute_forces c st) ∧
  (∀ st', same_particles st st' →
     segment_body_checked c st' i = Some st' ∧ segment_body c st' i = st') ∧
  forces (compute_forces c st) !!! i =
    (if decide (0 < i)
     then second_end c st (i - 1) (gravity_term c st i)
     else gravity_term c st i) ∧
  forces (compute_forces c st) !!! (i + 1) =
    (if decide (i + 2 < n_particles c)
     then first_end c st (i + 1) (gravity_term c st (i + 1))
     else gravity_term c st (i + 1)).
Proof.
  intros Hshape Hi Hdeg.
  pose proof (degenerate_fails_test _ Hdeg) as Hgt.
  split; [apply compute_forces_checked_ok|]. split; [|split].
  - intros st' Hsame.
    assert (segment_body c st' i = st') as Hskip.
    { apply segment_body_skip. rewrite (current_length_same _ _ _ Hsame). exact Hgt. }
    split; [|exact Hskip]. rewrite segment_body_checked_ok, Hskip. reflexivity.
  - rewrite compute_forces_lookup by (assumption || lia).
    rewrite decide_True by lia. unfold first_end at 1. rewrite Hgt.
    case_decide; reflexivity.
  - rewrite compute_forces_lookup by (assumption || lia).
    rewrite (decide_True (P := 0 < i + 1)) by lia.
    replace (i + 1 - 1) with i by lia. replace (i + 1 + 1) with (i + 2) by lia.
    unfold second_end. rewrite Hgt. case_decide; reflexivity.
Qed.

Lemma degenerate_segment_skipped_witness :
  shaped (weightless 2) Binary32.coincident ∧
  0 + 1 < n_particles (weightless (F := Binary32.f32) 2) ∧
  (fle (current_length Binary32.coincident 0) (lit 1 1000000) = true ∨
   is_zero (current_length Binary32.coincident 0) = true) ∧
  compute_forces_checked (weightless 2) Binary32.coincident =
    Some (compute_forces (weightless 2) Binary32.coincident).
Proof.
  assert (shaped (weightless 2) Binary32.coincident) as Hs
    by (split; [|split; [|split]]; vm_compute; reflexivity).
  assert (0 + 1 < n_particles (weightless (F := Binary32.f32) 2)) as Hi
    by (vm_compute; lia).
  assert (fle (current_length Binary32.coincident 0) (lit 1 1000000) = true ∨
          is_zero (current_length Binary32.coincident 0) = true) as Hd
    by (right; vm_compute; reflexivity).
  destruct (degenerate_segment_skipped (H0 := f32_laws) (weightless 2)
              Binary32.coincident 0 Hs Hi Hd) as (Hc&_).
  exact (conj Hs (conj Hi (conj Hd Hc))).
Defined.

(** ** [integrate] and [initialize_particles], particle by particle *)

(** Every entry of the velocity and position fields after [integrate]. *)
Lemma integrate_lookup {F : Type} `{Scalar F}
    (c : Constants F) (st : State F) (j : nat) :
  shaped c st →
  let v' := vadd (velocities st !!! j)
                 (vmul (vmul (forces st !!! j) (inv_mass st !!! j)) (dt c)) in
  velocities (integrate c st) !! j =
    (if decide (j < n_particles c ∧ fgt (inv_mass st !!! j) (lit 0 1) = true)
     then Some v' else velocities st !! j) ∧
  positions (integrate c st) !! j =
    (if decide (j < n_particles c ∧ fgt (inv_mass st !!! j) (lit 0 1) = true)
     then Some (vadd (positions st !!! j) (vmul v' (dt c)))
     else positions st !! j).
Proof.
  intros (Hp&Hv&_&_) v'. unfold integrate. case_decide as Hd.
  - destruct Hd as [Hj Hgt]. apply integrate_loop_updated; (assumption || lia).
  - destruct (decide (j < n_particles c)) as [Hj|Hj].
    + apply integrate_loop_untouched.
      destruct (fgt (inv_mass st !!! j) (lit 0 1)); [|reflexivity].
      exfalso. apply Hd. split; [exact Hj|reflexivity].
    + apply integrate_loop_later. lia.
Qed.

(** C5: [integrate] advances every particle whose inverse mass is not zero
    by semi-implicit Euler: the velocity becomes
    [velocity + (force * inverse_mass) * dt], and the position becomes
    [position + velocity * dt] with the velocity just computed.  A particle
    whose inverse mass is zero keeps its velocity and its position.  Inverse
    masses are zero or positive, as the data model has them. *)
Theorem integrate_semi_implicit_euler {F : Type} `{ScalarLaws F}
    (c : Constants F) (st : State F) (j : nat) :
  shaped c st →
  j < n_particles c →
  inv_mass st !!! j = lit 0 1 ∨ fgt (inv_mass st !!! j) (lit 0 1) = true →
  let v' := vadd (velocities st !!! j)
                 (vmul (vmul (forces st !!! j) (inv_mass st !!! j)) (dt c)) in
  (inv_mass st !!! j ≠ lit 0 1 →
     velocities (integrate c st) !!! j = v' ∧
     positions (integrate c st) !!! j = vadd (positions st !!! j) (vmul v' (dt c))) ∧
  (inv_mass st !!! j = lit 0 1 →
     velocities (integrate c st) !!! j = velocities st !!! j ∧
     positions (integrate c st) !!! j = positions st !!! j).
Proof.
  intros Hshape Hj Hmass v'.
  destruct (integrate_lookup c st j Hshape) as [Hv Hp]. fold v' in Hv, Hp.
  split.
  - intros Hnz. destruct Hmass as [Hz|Hgt]; [contradiction|].
    rewrite decide_True in Hv, Hp by (split; assumption).
    split; apply list_lookup_total_correct; assumption.
  - intros Hz.
    rewrite decide_False in Hv, Hp
      by (intros [_ Hgt]; rewrite Hz, gt_zero_zero in Hgt; discriminate).
    split; rewrite list_lookup_total_alt; [rewrite Hv|rewrite Hp];
      rewrite <- list_lookup_total_alt; reflexivity.
Qed.

Lemma integrate_semi_implicit_euler_witness :
  shaped Binary32.pair_constants Binary32.stretched_pair ∧
  1 < n_particles Binary32.pair_constants ∧
  (inv_mass Binary32.stretched_pair !!! 1 = lit 0 1 ∨
   fgt (inv_mass Binary32.stretched_pair !!! 1) (lit 0 1) = true) ∧
  (let v' := vadd (velocities Binary32.stretched_pair !!! 1)
               (vmul (vmul (forces Binary32.stretched_pair !!! 1)
                           (inv_mass Binary32.stretched_pair !!! 1))
                     (dt Binary32.pair_constants)) in
   (inv_mass Binary32.stretched_pair !!! 1 ≠ lit 0 1 →
      velocities (integrate Binary32.pair_constants Binary32.stretched_pair) !!! 1 = v' ∧
      positions (integrate Binary32.pair_constants Binary32.stretched_pair) !!! 1 =
        vadd (positions Binary32.stretched_pair !!! 1)
             (vmul v' (dt Binary32.pair_constants))) ∧
   (inv_mass Binary32.stretched_pair !!! 1 = lit 0 1 →
      velocities (integrate Binary32.pair_constants Binary32.stretched_pair) !!! 1 =
        velocities Binary32.stretched_pair !!! 1 ∧
      positions (integrate Binary32.pair_constants Binary32.stretched_pair) !!! 1 =
        positions Binary32.stretched_pair !!! 1)).
Proof.
  assert (shaped Binary32.pair_constants Binary32.stretched_pair) as Hs
    by (split; [|split; [|split]]; vm_compute; reflexivity).
  assert (1 < n_particles Binary32.pair_constants) as Hj
    by (vm_compute; lia).
  assert (inv_mass Binary32.stretched_pair !!! 1 = lit 0 1 ∨
          fgt (inv_mass Binary32.stretched_pair !!! 1) (lit 0 1) = true) as Hm
    by (right; vm_compute; reflexivity).
  exact (conj Hs (conj Hj (conj Hm
    (integrate_semi_implicit_euler (H0 := f32_laws) Binary32.pair_constants
       Binary32.stretched_pair 1 Hs Hj Hm)))).
Defined.

(** C7: [initialize_particles] places particle [i] at
    [start_pos + (i * rest_length, 0)], on the horizontal axis through
    [start_pos = (0.1, 0.8)], sets its velocity to the zero vector, and sets
    its inverse mass to [0] for [i = 0] and to [1 / particle_mass] for
    [i > 0]. *)
Theorem initialize_particles_spec {F : Type} `{Scalar F}
    (c : Constants F) (st : State F) (i : nat) :
  shaped c st →
  i < n_particles c →
  positions (initialize_particles c st) !!! i =
    vadd (Vec (lit 1 10) (lit 8 10))
         (Vec (fmul (of_int i) (rest_length c)) (lit 0 1)) ∧
  velocities (initialize_particles c st) !!! i = vzero ∧
  inv_mass (initialize_particles c st) !!! i =
    (if decide (i = 0) then lit 0 1 else fdiv (lit 1 1) (particle_mass c)).
Proof.
  intros (Hp&Hv&_&Hm) Hi. unfold initialize_particles.
  destruct (init_loop_lookup c st (n_particles c) i) as (Hp'&Hv'&Hm'); try lia.
  rewrite !list_lookup_total_alt, Hp', Hv', Hm'. repeat split.
Qed.

Lemma initialize_particles_spec_witness :
  shaped source_constants (fresh_state (source_constants (F := Binary32.f32))) ∧
  3 < n_particles (source_constants (F := Binary32.f32)) ∧
  positions (initialize_particles source_constants
               (fresh_state (source_constants (F := Binary32.f32)))) !!! 3 =
    vadd (Vec (lit 1 10) (lit 8 10))
         (Vec (fmul (of_int 3) (rest_length source_constants)) (lit 0 1)).
Proof.
  pose proof (fresh_state_shaped (source_constants (F := Binary32.f32))) as Hs.
  assert (3 < n_particles (source_constants (F := Binary32.f32))) as Hi
    by (vm_compute; lia).
  destruct (initialize_particles_spec source_constants _ 3 Hs Hi) as (Hc&_).
  exact (conj Hs (conj Hi Hc)).
Defined.

(** C9: [compute_forces] writes the force buffer only: positions, velocities
    and inverse masses are as before.  [integrate] leaves the force buffer
    and the inverse masses as they are, and changes neither the velocity nor
    the position of a particle whose inverse mass is not positive.  No kernel
    changes the shape of a field. *)
Theorem kernels_frame {F : Type} `{Scalar F} (c : Constants F) (st : State F) :
  (positions (compute_forces c st) = positions st ∧
   velocities (compute_forces c st) = velocities st ∧
   inv_mass (compute_forces c st) = inv_mass st) ∧
  forces (integrate c st) = forces st ∧
  inv_mass (integrate c st) = inv_mass st ∧
  (∀ j, fgt (inv_mass st !!! j) (lit 0 1) = false →
     velocities (integrate c st) !! j = velocities st !! j ∧
     positions (integrate c st) !! j = positions st !! j) ∧
  same_shape st (compute_forces c st) ∧
  same_shape st (integrate c st).
Proof.
  split; [exact (compute_forces_same c st)|].
  destruct (integrate_loop_frame c st (n_particles c)) as [Hf Hm].
  split; [exact Hf|]. split; [exact Hm|]. split; [|split].
  - intros j Hgt. apply integrate_loop_untouched. exact Hgt.
  - apply compute_forces_shape.
  - apply integrate_shape.
Qed.

Lemma kernels_frame_witness :
  fgt (inv_mass Binary32.stretched_pair !!! 0) (lit 0 1) = false ∧
  velocities (integrate Binary32.pair_constants Binary32.stretched_pair) !! 0 =
    velocities Binary32.stretched_pair !! 0 ∧
  positions (integrate Binary32.pair_constants Binary32.stretched_pair) !! 0 =
    positions Binary32.stretched_pair !! 0.
Proof.
  assert (fgt (inv_mass Binary32.stretched_pair !!! 0) (lit 0 1) = false) as Hg
    by (vm_compute; reflexivity).
  destruct (kernels_frame Binary32.pair_constants Binary32.stretched_pair)
    as (_&_&_&Hc&_).
  exact (conj Hg (Hc 0 Hg)).
Defined.

(** ** The frame loop *)

Section Frame.
Context {F : Type} `{Scalar F}.
Variable c : Constants F.

Lemma handle_events_sim (w : World F) (events : list Key) :
  sim (foldl handle_event w events) = sim w ∧
  launches (foldl handle_event w events) = launches w.
Proof.
  revert w. induction events as [|e events IH]; intros w; [split; reflexivity|].
  simpl. destruct (IH (handle_event w e)) as [-> ->].
  destruct e; split; reflexivity.
Qed.

Lemma repeated_pair_snoc {A} (p : list A) m :
  concat (replicate m p) ++ p = concat (replicate (S m) p).
Proof.
  induction m as [|m IH]; simpl in *; [rewrite app_nil_r; reflexivity|].
  rewrite <- app_assoc, IH. reflexivity.
Qed.

(** [m] turns of the substep loop: [m] substeps, and [m] times the pair of
    launches, in this order. *)
Lemma substep_loop (w : World F) m :
  sim (foldl (substep_body c) w (seq 0 m)) = Nat.iter m (substep c) (sim w) ∧
  launches (foldl (substep_body c) w (seq 0 m)) =
    launches w ++ concat (replicate m [ComputeForces; Integrate]) ∧
  pause (foldl (substep_body c) w (seq 0 m)) = pause w ∧
  running (foldl (substep_body c) w (seq 0 m)) = running w.
Proof.
  induction m as [|m (IHs&IHl&IHp&IHr)].
  - simpl. rewrite app_nil_r. repeat split.
  - rewrite foldl_seq_S. unfold substep_body at 1 3 5 7, launch; simpl sim;
      simpl launches; simpl pause; simpl running.
    rewrite IHs, IHl, IHp, IHr. repeat split.
    rewrite <- !app_assoc. f_equal.
    exact (repeated_pair_snoc [ComputeForces; Integrate] m).
Qed.
End Frame.

(** C6: in a frame, once the key presses are handled, if [pause] is set then
    no kernel is launched and the fields are as before; otherwise the pair
    [compute_forces], [integrate] is launched ten times, in this order, and
    nothing else is. *)
Theorem frame_substeps {F : Type} `{Scalar F}
    (c : Constants F) (w : World F) (events : list Key) :
  if pause (foldl handle_event w events)
  then sim (frame c w events) = sim w ∧
       launches (frame c w events) = launches w
  else sim (frame c w events) =
         Nat.iter 10 (λ st, integrate c (compute_forces c st)) (sim w) ∧
       launches (frame c w events) =
         launches w ++ concat (replicate 10 [ComputeForces; Integrate]).
Proof.
  unfold frame. destruct (handle_events_sim w events) as [Hs Hl].
  destruct (pause (foldl handle_event w events)); simpl negb; cbv iota.
  - split; assumption.
  - destruct (substep_loop c (foldl handle_event w events) 10) as (Hs'&Hl'&_).
    rewrite Hs', Hl', Hs, Hl. split; reflexivity.
Qed.

(** ** The pinned particle *)

Section Pin.
Context {F : Type} `{ScalarLaws F}.
Variable c : Constants F.

(** The first particle fails the test of [gravity_body] and [integrate_body]
    once the fields are initialized. *)
Lemma initialize_particles_pins :
  fgt (inv_mass (initialize_particles c (fresh_state c)) !!! 0) (lit 0 1) = false.
Proof.
  destruct (n_particles c) as [|n] eqn:Hn.
  - unfold initialize_particles, fresh_state. rewrite Hn. simpl.
    exact gt_zero_zero.
  - destruct (fresh_state_shaped c) as (Hlp&Hlv&_&Hlm).
    destruct (init_loop_lookup c (fresh_state c) (n_particles c) 0)
      as (_&_&Hm); try lia.
    unfold initialize_particles.
    rewrite list_lookup_total_alt, Hm. rewrite decide_True by reflexivity.
    exact gt_zero_zero.
Qed.

Lemma substep_first_particle (st0 st : State F) :
  fgt (inv_mass st0 !!! 0) (lit 0 1) = false →
  first_particle_as st0 st → first_particle_as st0 (substep c st).
Proof.
  intros Hpin (Hm&Hp&Hv). unfold substep.
  destruct (compute_forces_same c st) as (Hp'&Hv'&Hm').
  destruct (integrate_loop_frame c (compute_forces c st) (n_particles c))
    as [_ Hm''].
  destruct (integrate_loop_untouched c (compute_forces c st) (n_particles c) 0)
    as [Hv'' Hp'']; [rewrite Hm', Hm; exact Hpin|].
  unfold integrate. split; [|split]; congruence.
Qed.

Lemma substeps_first_particle (st0 st : State F) k :
  fgt (inv_mass st0 !!! 0) (lit 0 1) = false →
  first_particle_as st0 st → first_particle_as st0 (Nat.iter k (substep c) st).
Proof.
  intros Hpin Hst. induction k as [|k IH]; [exact Hst|].
  simpl. apply substep_first_particle; assumption.
Qed.

Lemma frame_first_particle (st0 : State F) (w : World F) events :
  fgt (inv_mass st0 !!! 0) (lit 0 1) = false →
  first_particle_as st0 (sim w) → first_particle_as st0 (sim (frame c w events)).
Proof.
  intros Hpin Hw. unfold frame.
  destruct (handle_events_sim w events) as [Hs _].
  destruct (pause (foldl handle_event w events)); simpl negb; cbv iota.
  - rewrite Hs. exact Hw.
  - destruct (substep_loop c (foldl handle_event w events) 10) as (->&_).
    rewrite Hs. apply substeps_first_particle; assumption.
Qed.

Lemma main_loop_first_particle (st0 : State F) (w : World F) frames :
  fgt (inv_mass st0 !!! 0) (lit 0 1) = false →
  first_particle_as st0 (sim w) →
  first_particle_as st0 (sim (main_loop c w frames)).
Proof.
  intros Hpin. revert w. induction frames as [|events frames IH]; intros w Hw.
  - exact Hw.
  - simpl. destruct (running w); [|exact Hw].
    apply IH, frame_first_particle; assumption.
Qed.
End Pin.

(** C2: once [initialize_particles] has run, the position and the velocity
    of particle 0 are what it set them to after any number of substeps, and
    after any number of frames of [main], whatever keys are pressed. *)
Theorem pin_invariant {F : Type} `{ScalarLaws F}
    (c : Constants F) (k : nat) (frames : list (list Key)) :
  (positions (Nat.iter k (substep c) (initialize_particles c (fresh_state c))) !! 0 =
     positions (initialize_particles c (fresh_state c)) !! 0 ∧
   velocities (Nat.iter k (substep c) (initialize_particles c (fresh_state c))) !! 0 =
     velocities (initialize_particles c (fresh_state c)) !! 0) ∧
  (positions (sim (main c frames)) !! 0 =
     positions (initialize_particles c (fresh_state c)) !! 0 ∧
   velocities (sim (main c frames)) !! 0 =
     velocities (initialize_particles c (fresh_state c)) !! 0).
Proof.
  pose proof (initialize_particles_pins c) as Hpin.
  assert (first_particle_as (initialize_particles c (fresh_state c))
            (initialize_particles c (fresh_state c))) as Hst0
    by (split; [|split]; reflexivity).
  split.
  - destruct (substeps_first_particle c _ _ k Hpin Hst0) as (_&Hp&Hv).
    split; assumption.
  - destruct (main_loop_first_particle c _ (main_start c) frames Hpin Hst0)
      as (_&Hp&Hv).
    split; assumption.
Qed.

Lemma pin_invariant_witness :
  positions (Nat.iter 1000 (substep source_constants)
               (initialize_particles source_constants
                  (fresh_state (source_constants (F := Binary32.f32))))) !! 0 =
    positions (initialize_particles source_constants
                 (fresh_state (source_constants (F := Binary32.f32)))) !! 0.
Proof.
  exact (proj1 (proj1
    (pin_invariant (H0 := f32_laws) source_constants 1000 []))).
Defined.

(** ** The reaction at the pin *)

(** [integrate] does not read the accumulator of a particle that fails its
    test. *)
Lemma integrate_ignores_force {F : Type} `{Scalar F}
    (c : Constants F) (st : State F) (j : nat) (x : Vec2 F) :
  shaped c st →
  fgt (inv_mass st !!! j) (lit 0 1) = false →
  positions (integrate c (set_forces <[j := x]> st)) = positions (integrate c st) ∧
  velocities (integrate c (set_forces <[j := x]> st)) = velocities (integrate c st).
Proof.
  intros Hshape Hgt.
  assert (shaped c (set_forces <[j := x]> st)) as Hshape'.
  { destruct Hshape as (?&?&?&?). repeat split; simpl; try assumption.
    rewrite length_insert. assumption. }
  assert (∀ k, fgt (inv_mass st !!! k) (lit 0 1) = true →
               forces (set_forces <[j := x]> st) !!! k = forces st !!! k) as Hk.
  { intros k Hk. simpl. apply list_lookup_total_insert_ne.
    intros ->. rewrite Hgt in Hk. discriminate. }
  split; apply list_eq; intros k;
    destruct (integrate_lookup c st k Hshape) as [Hv Hp];
    destruct (integrate_lookup c _ k Hshape') as [Hv' Hp'];
    [rewrite Hp, Hp'|rewrite Hv, Hv']; clear Hv Hp Hv' Hp'; simpl;
    (destruct (decide (k < n_particles c ∧
                       fgt (inv_mass st !!! k) (lit 0 1) = true)) as [[_ Hd]|_];
     [|reflexivity]);
    pose proof (Hk k Hd) as Hfk; simpl in Hfk; rewrite Hfk; reflexivity.
Qed.

(** C10: when particle 0 is pinned and the chain has a segment, the force
    pass leaves in the accumulator of particle 0 no gravity term: it holds
    the zero vector, to which the spring force vector and the damping force
    vector of segment (0,1) are added whenever the length of that segment
    exceeds the threshold.  [integrate] does not read this accumulator:
    whatever it holds, the positions and velocities after [integrate] are the
    same. *)
Theorem pin_reaction {F : Type} `{ScalarLaws F}
    (c : Constants F) (st : State F) :
  shaped c st →
  2 ≤ n_particles c →
  inv_mass st !!! 0 = lit 0 1 →
  forces (compute_forces c st) !!! 0 =
    (if fgt (current_length st 0) (lit 1 1000000)
     then vadd (vadd (Vec (lit 0 1) (lit 0 1)) (spring_force_vec c st 0))
               (damping_force_vec c st 0)
     else Vec (lit 0 1) (lit 0 1)) ∧
  ∀ x : Vec2 F,
    positions (integrate c (set_forces <[0 := x]> (compute_forces c st))) =
      positions (integrate c (compute_forces c st)) ∧
    velocities (integrate c (set_forces <[0 := x]> (compute_forces c st))) =
      velocities (integrate c (compute_forces c st)).
Proof.
  intros Hshape Hn Hpin. split.
  - rewrite compute_forces_lookup by (assumption || lia).
    rewrite decide_True by lia. rewrite decide_False by lia.
    unfold first_end, gravity_term. rewrite Hpin, gt_zero_zero. reflexivity.
  - intros x. apply integrate_ignores_force.
    + exact (same_shape_shaped c _ _ (compute_forces_shape c st) Hshape).
    + destruct (compute_forces_same c st) as (_&_&->).
      rewrite Hpin. exact gt_zero_zero.
Qed.

Lemma pin_reaction_witness :
  shaped Binary32.pair_constants Binary32.stretched_pair ∧
  2 ≤ n_particles Binary32.pair_constants ∧
  inv_mass Binary32.stretched_pair !!! 0 = lit 0 1 ∧
  forces (compute_forces Binary32.pair_constants Binary32.stretched_pair) !!! 0 =
    (if fgt (current_length Binary32.stretched_pair 0) (lit 1 1000000)
     then vadd (vadd (Vec (lit 0 1) (lit 0 1))
                     (spring_force_vec Binary32.pair_constants Binary32.stretched_pair 0))
               (damping_force_vec Binary32.pair_constants Binary32.stretched_pair 0)
     else Vec (lit 0 1) (lit 0 1)).
Proof.
  assert (shaped Binary32.pair_constants Binary32.stretched_pair) as Hs
    by (split; [|split; [|split]]; vm_compute; reflexivity).
  assert (2 ≤ n_particles Binary32.pair_constants) as Hn
    by (vm_compute; lia).
  assert (inv_mass Binary32.stretched_pair !!! 0 = lit 0 1) as Hp
    by (vm_compute; reflexivity).
  destruct (pin_reaction (H0 := f32_laws) Binary32.pair_constants
              Binary32.stretched_pair Hs Hn Hp) as (Hc&_).
  exact (conj Hs (conj Hn (conj Hp Hc))).
Defined.

(** ** Equilibrium at rest length *)

Section Equilibrium.
Context {F : Type} `{ScalarLaws F} `{!ZeroLaws F}.
Variable c : Constants F.

Lemma zero_vec_zero : zero_vec (Vec (lit 0 1) (lit 0 1) : Vec2 F).
Proof. split; exact zero_is_zero. Qed.

Lemma zero_vec_vmul (v : Vec2 F) (s : F) :
  zero_vec v → is_finite s = true → zero_vec (vmul v s).
Proof. intros [Hx Hy] Hs. split; simpl; apply mul_zero_l; assumption. Qed.

Lemma zero_vec_smul (z : F) (u : Vec2 F) :
  is_zero z = true → finite_vec u → zero_vec (smul z u).
Proof. intros Hz [Hx Hy]. split; simpl; apply mul_zero_l; assumption. Qed.

Lemma zero_vec_vsub (a b : Vec2 F) : zero_vec a → zero_vec b → zero_vec (vsub a b).
Proof. intros [? ?] [? ?]. split; simpl; apply sub_zeros; assumption. Qed.

Lemma dot_zero_vec (a u : Vec2 F) :
  zero_vec a → finite_vec u → is_zero (dot a u) = true.
Proof.
  intros [Hx Hy] [Hux Huy]. unfold dot.
  apply add_zeros; apply mul_zero_l; assumption.
Qed.

Lemma vadd_zero_vec_l (z : Vec2 F) :
  zero_vec z → vadd (Vec (lit 0 1) (lit 0 1)) z = Vec (lit 0 1) (lit 0 1).
Proof.
  intros [Hx Hy]. unfold vadd; simpl. rewrite !zero_add_zero by assumption.
  reflexivity.
Qed.

Lemma vadd_zero_vec_r (p z : Vec2 F) :
  zero_vec z → absorbs_zero (vx p) → absorbs_zero (vy p) → vadd p z = p.
Proof.
  intros [Hx Hy] Hpx Hpy. destruct p as [px py]. unfold vadd; simpl in *.
  rewrite (add_any_zero px) by assumption.
  rewrite (add_any_zero py) by assumption. reflexivity.
Qed.

(** The premises of the equilibrium that concern the parameters: two
    particles, no gravity. *)
Hypothesis two_particles : n_particles c = 2.
Hypothesis no_gravity : gravity c = Vec (lit 0 1) (lit 0 1).

Lemma gravity_term_zero (st : State F) j :
  is_finite (particle_mass c) = true →
  gravity_term c st j = Vec (lit 0 1) (lit 0 1).
Proof.
  intros Hpm. unfold gravity_term. rewrite no_gravity.
  rewrite vadd_zero_vec_l by (apply zero_vec_vmul; [apply zero_vec_zero|exact Hpm]).
  destruct (fgt _ _); reflexivity.
Qed.

(** At rest length and at rest, the two force vectors of the segment are
    vectors of zeros. *)
Lemma rest_forces_vanish (st : State F) :
  velocities st !!! 0 = vzero → velocities st !!! 1 = vzero →
  current_length st 0 = rest_length c →
  finite_pair c st →
  zero_vec (spring_force_vec c st 0) ∧ zero_vec (damping_force_vec c st 0).
Proof.
  intros Hv0 Hv1 HL (_&Hk&Hd&Hr&_&_&Hu&_&_). split.
  - unfold spring_force_vec. apply zero_vec_smul; [|exact Hu].
    apply mul_zero_r; [exact Hk|]. rewrite HL. apply sub_diag_zero. exact Hr.
  - unfold damping_force_vec. simpl. rewrite Hv0, Hv1.
    apply zero_vec_smul; [|exact Hu]. apply mul_zero_r; [exact Hd|].
    apply dot_zero_vec; [|exact Hu].
    apply zero_vec_vsub; apply zero_vec_zero.
Qed.

(** So the accumulator of the second particle holds zeros after the pass. *)
Lemma rest_accumulator_zero (st : State F) :
  shaped c st →
  velocities st !!! 0 = vzero → velocities st !!! 1 = vzero →
  current_length st 0 = rest_length c →
  finite_pair c st →
  zero_vec (forces (compute_forces c st) !!! 1).
Proof.
  intros Hshape Hv0 Hv1 HL Hfin.
  destruct (rest_forces_vanish st Hv0 Hv1 HL Hfin) as [Hs Hd].
  destruct Hfin as (Hpm&_).
  rewrite compute_forces_lookup by (assumption || lia).
  rewrite decide_False by lia. rewrite decide_True by lia.
  unfold second_end. simpl. rewrite (gravity_term_zero st 1 Hpm).
  destruct (fgt _ _); [|apply zero_vec_zero].
  apply zero_vec_vsub; [apply zero_vec_vsub; [apply zero_vec_zero|]|]; assumption.
Qed.

Lemma substep_at_rest (st : State F) :
  shaped c st →
  inv_mass st !!! 0 = lit 0 1 →
  velocities st !!! 0 = vzero → velocities st !!! 1 = vzero →
  current_length st 0 = rest_length c →
  finite_pair c st →
  same_particles st (substep c st).
Proof.
  intros Hshape Hpin Hv0 Hv1 HL Hfin. unfold substep.
  destruct (compute_forces_same c st) as (Hp'&Hv'&Hm').
  pose proof (same_shape_shaped c _ _ (compute_forces_shape c st) Hshape)
    as Hshape'.
  pose proof (rest_accumulator_zero st Hshape Hv0 Hv1 HL Hfin) as Hf1.
  destruct Hfin as (_&_&_&_&Hdt&Hm1&_&Hpx&Hpy).
  destruct (integrate_loop_frame c (compute_forces c st) (n_particles c))
    as [_ Hm''].
  assert (zero_vec (vmul (vmul (forces (compute_forces c st) !!! 1)
                               (inv_mass st !!! 1)) (dt c))) as Hz
    by (apply zero_vec_vmul; [apply zero_vec_vmul|]; assumption).
  assert (∀ k, k < n_particles c →
               fgt (inv_mass (compute_forces c st) !!! k) (lit 0 1) = true →
               k = 1) as Hone.
  { intros k Hk Hgt. destruct k as [|[|k]]; [|reflexivity|lia].
    rewrite Hm', Hpin, gt_zero_zero in Hgt. discriminate. }
  destruct Hshape as (Hlp&Hlv&_&_).
  split; [|split]; [| |unfold integrate; congruence].
  - rewrite <- Hp'. apply list_eq. intros k.
    destruct (integrate_lookup c _ k Hshape') as [_ ->].
    destruct (decide (k < n_particles c ∧
                fgt (inv_mass (compute_forces c st) !!! k) (lit 0 1) = true))
      as [[Hk Hgt]|_]; [|reflexivity].
    rewrite (Hone k Hk Hgt). rewrite Hm', Hv', Hp', Hv1. unfold vzero, fzero.
    rewrite (vadd_zero_vec_l _ Hz).
    rewrite vadd_zero_vec_r;
      [|apply zero_vec_vmul; [apply zero_vec_zero|exact Hdt]|exact Hpx|exact Hpy].
    symmetry. apply list_lookup_lookup_total_lt. lia.
  - rewrite <- Hv'. apply list_eq. intros k.
    destruct (integrate_lookup c _ k Hshape') as [-> _].
    destruct (decide (k < n_particles c ∧
                fgt (inv_mass (compute_forces c st) !!! k) (lit 0 1) = true))
      as [[Hk Hgt]|_]; [|reflexivity].
    rewrite (Hone k Hk Hgt). rewrite Hm', Hv', Hv1. unfold vzero, fzero.
    rewrite (vadd_zero_vec_l _ Hz).
    rewrite (list_lookup_lookup_total_lt (velocities st) 1) by lia.
    rewrite Hv1. reflexivity.
Qed.

Lemma substeps_at_rest (st : State F) k :
  shaped c st →
  inv_mass st !!! 0 = lit 0 1 →
  velocities st !!! 0 = vzero → velocities st !!! 1 = vzero →
  current_length st 0 = rest_length c →
  finite_pair c st →
  same_particles st (Nat.iter k (substep c) st) ∧
  shaped c (Nat.iter k (substep c) st).
Proof.
  intros Hshape Hpin Hv0 Hv1 HL Hfin. induction k as [|k [IH IHshape]].
  - split; [apply same_particles_refl|exact Hshape].
  - simpl. split.
    + eapply same_particles_trans; [exact IH|].
      destruct IH as (Hp&Hv&Hm).
      apply substep_at_rest; [exact IHshape|congruence..| |].
      * rewrite (current_length_same st _ 0); [exact HL|]. repeat split; assumption.
      * unfold finite_pair, direction_vec, current_length, dist_vec in *.
        rewrite Hp, Hm. exact Hfin.
    + unfold substep.
      eapply same_shape_shaped; [apply integrate_shape|].
      eapply same_shape_shaped; [apply compute_forces_shape|]. exact IHshape.
Qed.
End Equilibrium.

(** C8: take two particles and no gravity, the first particle pinned, both
    at rest, and the second one exactly one rest length away from the first,
    as [current_length] measures it.  This state is a fixed point of the
    substep: after any number of substeps, 1000 among them, every position
    and every velocity is what it was.  In binary32 this needs finite
    parameters and no negative zero among the coordinates of the second
    particle; for the reals [finite_pair] always holds. *)
Theorem rest_length_equilibrium {F : Type} `{ScalarLaws F} `{!ZeroLaws F}
    (c : Constants F) (st : State F) (k : nat) :
  n_particles c = 2 →
  gravity c = Vec (lit 0 1) (lit 0 1) →
  shaped c st →
  inv_mass st !!! 0 = lit 0 1 →
  velocities st !!! 0 = vzero →
  velocities st !!! 1 = vzero →
  current_length st 0 = rest_length c →
  finite_pair c st →
  positions (Nat.iter k (substep c) st) = positions st ∧
  velocities (Nat.iter k (substep c) st) = velocities st.
Proof.
  intros Hn Hg Hshape Hpin Hv0 Hv1 HL Hfin.
  destruct (substeps_at_rest c Hn Hg st k Hshape Hpin Hv0 Hv1 HL Hfin)
    as [(Hp&Hv&_) _].
  split; assumption.
Qed.

Lemma rest_length_equilibrium_witness :
  n_particles (weightless (F := Binary32.f32) 2) = 2 ∧
  gravity (weightless (F := Binary32.f32) 2) = Vec (lit 0 1) (lit 0 1) ∧
  shaped (weightless 2) Binary32.pair_initial ∧
  inv_mass Binary32.pair_initial !!! 0 = lit 0 1 ∧
  velocities Binary32.pair_initial !!! 0 = vzero ∧
  velocities Binary32.pair_initial !!! 1 = vzero ∧
  current_length Binary32.pair_initial 0 =
    rest_length (weightless (F := Binary32.f32) 2) ∧
  finite_pair (weightless 2) Binary32.pair_initial ∧
  positions (Nat.iter 1000 (substep (weightless 2)) Binary32.pair_initial) =
    positions Binary32.pair_initial ∧
  velocities (Nat.iter 1000 (substep (weightless 2)) Binary32.pair_initial) =
    velocities Binary32.pair_initial.
Proof.
  assert (n_particles (weightless (F := Binary32.f32) 2) = 2) as Hn
    by reflexivity.
  assert (gravity (weightless (F := Binary32.f32) 2) = Vec (lit 0 1) (lit 0 1))
    as Hg by reflexivity.
  assert (shaped (weightless 2) Binary32.pair_initial) as Hs
    by (split; [|split; [|split]]; vm_compute; reflexivity).
  assert (inv_mass Binary32.pair_initial !!! 0 = lit 0 1) as Hpin
    by (vm_compute; reflexivity).
  assert (velocities Binary32.pair_initial !!! 0 = vzero) as Hv0
    by (vm_compute; reflexivity).
  assert (velocities Binary32.pair_initial !!! 1 = vzero) as Hv1
    by (vm_compute; reflexivity).
  assert (current_length Binary32.pair_initial 0 =
          rest_length (weightless (F := Binary32.f32) 2)) as HL
    by (vm_compute; reflexivity).
  assert (finite_pair (weightless 2) Binary32.pair_initial) as Hfin
    by (unfold finite_pair, finite_vec, absorbs_zero;
        do 6 (split; [vm_compute; reflexivity|]);
        split; [split|split]; vm_compute; reflexivity).
  exact (conj Hn (conj Hg (conj Hs (conj Hpin (conj Hv0 (conj Hv1 (conj HL
    (conj Hfin
      (rest_length_equilibrium (H0 := f32_laws) (ZeroLaws0 := f32_zero_laws)
         (weightless 2) Binary32.pair_initial 1000
         Hn Hg Hs Hpin Hv0 Hv1 HL Hfin))))))))).
Defined.

(** For the reals the premises about finiteness are void. *)
Lemma rest_length_equilibrium_real (c : Constants R) (st : State R) (k : nat) :
  n_particles c = 2 →
  gravity c = Vec (lit 0 1) (lit 0 1) →
  shaped c st →
  inv_mass st !!! 0 = lit 0 1 →
  velocities st !!! 0 = vzero →
  velocities st !!! 1 = vzero →
  current_length st 0 = rest_length c →
  positions (Nat.iter k (substep c) st) = positions st ∧
  velocities (Nat.iter k (substep c) st) = velocities st.
Proof.
  intros Hn Hg Hshape Hpin Hv0 Hv1 HL.
  assert (finite_pair c st) as Hfin.
  { unfold finite_pair, finite_vec, absorbs_zero; simpl.
    repeat split; try reflexivity; lra. }
  destruct (substeps_at_rest (H0 := R_laws) (ZeroLaws0 := R_zero_laws)
              c Hn Hg st k Hshape Hpin Hv0 Hv1 HL Hfin) as [(Hp&Hv&_) _].
  split; assumption.
Qed.

(** * Further properties *)

(** ** The force buffer is scratch space *)

Section Scratch.
Context {F : Type} `{Scalar F}.
Variable c : Constants F.

Lemma State_eq (a b : State F) :
  positions a = positions b → velocities a = velocities b →
  forces a = forces b → inv_mass a = inv_mass b → a = b.
Proof. destruct a, b; simpl; intros; subst; reflexivity. Qed.

Lemma gravity_term_same (st st' : State F) j :
  same_particles st st' → gravity_term c st' j = gravity_term c st j.
Proof. intros (_&_&Hm). unfold gravity_term. rewrite Hm. reflexivity. Qed.

Lemma compute_forces_forces_same (st st' : State F) :
  shaped c st → shaped c st' → same_particles st st' →
  forces (compute_forces c st') = forces (compute_forces c st).
Proof.
  intros Hs Hs' Hsame. apply list_eq. intros j.
  pose proof (same_shape_shaped c _ _ (compute_forces_shape c st) Hs)
    as (_&_&Hl&_).
  pose proof (same_shape_shaped c _ _ (compute_forces_shape c st') Hs')
    as (_&_&Hl'&_).
  destruct (decide (j < n_particles c)) as [Hj|Hj].
  - rewrite !list_lookup_lookup_total_lt by lia. f_equal.
    rewrite !compute_forces_lookup by assumption.
    rewrite (gravity_term_same _ _ j Hsame).
    repeat case_decide;
      rewrite ?(first_end_same c _ _ _ _ Hsame), ?(second_end_same c _ _ _ _ Hsame);
      reflexivity.
  - rewrite !lookup_ge_None_2 by lia. reflexivity.
Qed.
End Scratch.

(** X1: [compute_forces] computes the forces from the positions, velocities
    and inverse masses alone: whatever the force buffer held before, the
    fields after the pass are the same.  In particular a second pass right
    after the first changes nothing. *)
Theorem compute_forces_from_scratch {F : Type} `{Scalar F}
    (c : Constants F) (st st' : State F) :
  shaped c st → shaped c st' → same_particles st st' →
  compute_forces c st' = compute_forces c st.
Proof.
  intros Hs Hs' Hsame.
  destruct (compute_forces_same c st) as (Hp&Hv&Hm).
  destruct (compute_forces_same c st') as (Hp'&Hv'&Hm').
  destruct Hsame as (Hp0&Hv0&Hm0).
  apply State_eq; [congruence|congruence| |congruence].
  apply compute_forces_forces_same; [assumption..|]. repeat split; assumption.
Qed.

Lemma compute_forces_from_scratch_witness :
  shaped Binary32.pair_constants Binary32.stretched_pair ∧
  shaped Binary32.pair_constants
    (compute_forces Binary32.pair_constants Binary32.stretched_pair) ∧
  same_particles Binary32.stretched_pair
    (compute_forces Binary32.pair_constants Binary32.stretched_pair) ∧
  compute_forces Binary32.pair_constants
    (compute_forces Binary32.pair_constants Binary32.stretched_pair) =
  compute_forces Binary32.pair_constants Binary32.stretched_pair.
Proof.
  assert (shaped Binary32.pair_constants Binary32.stretched_pair) as Hs
    by (split; [|split; [|split]]; vm_compute; reflexivity).
  assert (shaped Binary32.pair_constants
            (compute_forces Binary32.pair_constants Binary32.stretched_pair))
    as Hs' by (split; [|split; [|split]]; vm_compute; reflexivity).
  assert (same_particles Binary32.stretched_pair
            (compute_forces Binary32.pair_constants Binary32.stretched_pair))
    as Hsame by (split; [|split]; vm_compute; reflexivity).
  exact (conj Hs (conj Hs' (conj Hsame
    (compute_forces_from_scratch Binary32.pair_constants
       Binary32.stretched_pair _ Hs Hs' Hsame)))).
Defined.

(** ** Particles that fail the test of [integrate] *)

Section Fixed.
Context {F : Type} `{Scalar F}.
Variable c : Constants F.

Lemma substep_keeps_pinned (st0 st : State F) j :
  fgt (inv_mass st0 !!! j) (lit 0 1) = false →
  inv_mass st = inv_mass st0 ∧
    positions st !! j = positions st0 !! j ∧
    velocities st !! j = velocities st0 !! j →
  inv_mass (substep c st) = inv_mass st0 ∧
    positions (substep c st) !! j = positions st0 !! j ∧
    velocities (substep c st) !! j = velocities st0 !! j.
Proof.
  intros Hpin (Hm&Hp&Hv). unfold substep.
  destruct (compute_forces_same c st) as (Hp'&Hv'&Hm').
  destruct (integrate_loop_frame c (compute_forces c st) (n_particles c))
    as [_ Hm''].
  destruct (integrate_loop_untouched c (compute_forces c st) (n_particles c) j)
    as [Hv'' Hp'']; [rewrite Hm', Hm; exact Hpin|].
  unfold integrate. split; [|split]; congruence.
Qed.
End Fixed.

(** X2: a particle whose inverse mass fails the test [inv_mass[j] > 0] in
    some state, whichever particle and whichever state, has the same
    position and the same velocity after any number of substeps, and no
    substep changes an inverse mass or the shape of a field. *)
Theorem pinned_particle_fixed {F : Type} `{Scalar F}
    (c : Constants F) (st : State F) (j k : nat) :
  fgt (inv_mass st !!! j) (lit 0 1) = false →
  positions (Nat.iter k (substep c) st) !! j = positions st !! j ∧
  velocities (Nat.iter k (substep c) st) !! j = velocities st !! j ∧
  inv_mass (Nat.iter k (substep c) st) = inv_mass st ∧
  same_shape st (Nat.iter k (substep c) st).
Proof.
  intros Hpin.
  assert (inv_mass (Nat.iter k (substep c) st) = inv_mass st ∧
          positions (Nat.iter k (substep c) st) !! j = positions st !! j ∧
          velocities (Nat.iter k (substep c) st) !! j = velocities st !! j)
    as (Hm&Hp&Hv).
  { induction k as [|k IH]; [repeat split|].
    simpl. apply substep_keeps_pinned; assumption. }
  split; [exact Hp|]. split; [exact Hv|]. split; [exact Hm|].
  clear. induction k as [|k IH]; [apply same_shape_refl|].
  simpl. unfold substep at 1.
  eapply same_shape_trans; [exact IH|].
  eapply same_shape_trans; [apply compute_forces_shape|apply integrate_shape].
Qed.

Lemma pinned_particle_fixed_witness :
  fgt (inv_mass Binary32.stretched_pair !!! 0) (lit 0 1) = false ∧
  positions (Nat.iter 1000 (substep Binary32.pair_constants)
               Binary32.stretched_pair) !! 0 =
    positions Binary32.stretched_pair !! 0.
Proof.
  assert (fgt (inv_mass Binary32.stretched_pair !!! 0) (lit 0 1) = false) as Hg
    by (vm_compute; reflexivity).
  destruct (pinned_particle_fixed Binary32.pair_constants
              Binary32.stretched_pair 0 1000 Hg) as (Hc&_).
  exact (conj Hg Hc).
Defined.

(** ** [initialize_particles] as a reset *)

Section Reset.
Context {F : Type} `{Scalar F}.
Variable c : Constants F.

Lemma init_loop_forces (st : State F) m :
  forces (foldl (init_body c) st (seq 0 m)) = forces st.
Proof.
  apply (foldl_seq_invariant (λ x, forces x = forces st)); [reflexivity|].
  intros x i _ Hx. unfold init_body. destruct (Nat.eqb i 0); exact Hx.
Qed.

Lemma initialize_particles_fields (st : State F) :
  shaped c st →
  positions (initialize_particles c st) =
    (λ i, vadd (Vec (lit 1 10) (lit 8 10))
               (Vec (fmul (of_int i) (rest_length c)) (lit 0 1)))
      <$> seq 0 (n_particles c) ∧
  velocities (initialize_particles c st) =
    (λ _, Vec (lit 0 1) (lit 0 1)) <$> seq 0 (n_particles c) ∧
  inv_mass (initialize_particles c st) =
    (λ i, if decide (i = 0) then lit 0 1 else fdiv (lit 1 1) (particle_mass c))
      <$> seq 0 (n_particles c).
Proof.
  intros Hs.
  pose proof (same_shape_shaped c _ _ (initialize_particles_shape c st) Hs)
    as (Hlp&Hlv&_&Hlm).
  destruct Hs as (Hp&Hv&_&Hm).
  repeat split; apply list_eq; intros j; rewrite list_lookup_fmap;
    (destruct (decide (j < n_particles c)) as [Hj|Hj];
     [ rewrite lookup_seq_lt by lia; simpl;
       destruct (init_loop_lookup c st (n_particles c) j) as (Hp'&Hv'&Hm');
       try lia; assumption
     | rewrite lookup_seq_ge by lia; simpl; apply lookup_ge_None_2; lia ]).
Qed.
End Reset.

(** X3: [initialize_particles] is a reset: the positions, velocities and
    inverse masses it leaves do not depend on what the fields held before,
    so running it again restores the initial rope; it does not touch the
    force buffer. *)
Theorem initialize_particles_resets {F : Type} `{Scalar F}
    (c : Constants F) (st st' : State F) :
  shaped c st → shaped c st' →
  same_particles (initialize_particles c st) (initialize_particles c st') ∧
  forces (initialize_particles c st') = forces st'.
Proof.
  intros Hs Hs'.
  destruct (initialize_particles_fields c st Hs) as (Hp&Hv&Hm).
  destruct (initialize_particles_fields c st' Hs') as (Hp'&Hv'&Hm').
  split; [|apply init_loop_forces].
  split; [|split]; congruence.
Qed.

Lemma initialize_particles_resets_witness :
  shaped Binary32.pair_constants (fresh_state Binary32.pair_constants) ∧
  shaped Binary32.pair_constants Binary32.stretched_pair ∧
  same_particles
    (initialize_particles Binary32.pair_constants
       (fresh_state Binary32.pair_constants))
    (initialize_particles Binary32.pair_constants Binary32.stretched_pair) ∧
  forces (initialize_particles Binary32.pair_constants Binary32.stretched_pair) =
    forces Binary32.stretched_pair.
Proof.
  pose proof (fresh_state_shaped Binary32.pair_constants) as Hs.
  assert (shaped Binary32.pair_constants Binary32.stretched_pair) as Hs'
    by (split; [|split; [|split]]; vm_compute; reflexivity).
  exact (conj Hs (conj Hs'
    (initialize_particles_resets Binary32.pair_constants _ _ Hs Hs'))).
Defined.

(** ** [integrate] without force *)

(** X4: a particle that passes the test of [integrate] while its accumulator
    holds zeros keeps its velocity and moves by [velocity * dt]: the kernel
    advances the state at every call.  In binary32 this needs a finite
    inverse mass and a finite [dt], and no negative zero in the velocity. *)
Theorem integrate_without_force {F : Type} `{Scalar F} `{!ZeroLaws F}
    (c : Constants F) (st : State F) (j : nat) :
  shaped c st →
  j < n_particles c →
  fgt (inv_mass st !!! j) (lit 0 1) = true →
  zero_vec (forces st !!! j) →
  is_finite (inv_mass st !!! j) = true →
  is_finite (dt c) = true →
  absorbs_zero (vx (velocities st !!! j)) →
  absorbs_zero (vy (velocities st !!! j)) →
  velocities (integrate c st) !!! j = velocities st !!! j ∧
  positions (integrate c st) !!! j =
    vadd (positions st !!! j) (vmul (velocities st !!! j) (dt c)).
Proof.
  intros Hs Hj Hgt Hz Him Hdt Hax Hay.
  destruct (integrate_lookup c st j Hs) as [Hv Hp].
  rewrite decide_True in Hv, Hp by (split; assumption).
  assert (vadd (velocities st !!! j)
               (vmul (vmul (forces st !!! j) (inv_mass st !!! j)) (dt c)) =
          velocities st !!! j) as Hsame.
  { destruct Hz as [Hzx Hzy]. destruct (velocities st !!! j) as [x y].
    unfold vadd, vmul; simpl in *.
    rewrite (add_any_zero x), (add_any_zero y);
      try assumption; try reflexivity;
      apply mul_zero_l; try assumption; apply mul_zero_l; assumption. }
  rewrite Hsame in Hv, Hp.
  split; apply list_lookup_total_correct; assumption.
Qed.

Lemma integrate_without_force_witness :
  shaped (weightless 2) Binary32.coincident ∧
  1 < n_particles (weightless (F := Binary32.f32) 2) ∧
  fgt (inv_mass Binary32.coincident !!! 1) (lit 0 1) = true ∧
  zero_vec (forces Binary32.coincident !!! 1) ∧
  is_finite (inv_mass Binary32.coincident !!! 1) = true ∧
  is_finite (dt (weightless (F := Binary32.f32) 2)) = true ∧
  absorbs_zero (vx (velocities Binary32.coincident !!! 1)) ∧
  absorbs_zero (vy (velocities Binary32.coincident !!! 1)) ∧
  velocities (integrate (weightless 2) Binary32.coincident) !!! 1 =
    velocities Binary32.coincident !!! 1 ∧
  positions (integrate (weightless 2) Binary32.coincident) !!! 1 =
    vadd (positions Binary32.coincident !!! 1)
         (vmul (velocities Binary32.coincident !!! 1) (dt (weightless 2))).
Proof.
  assert (shaped (weightless 2) Binary32.coincident) as Hs
    by (split; [|split; [|split]]; vm_compute; reflexivity).
  assert (1 < n_particles (weightless (F := Binary32.f32) 2)) as Hj
    by (vm_compute; lia).
  assert (fgt (inv_mass Binary32.coincident !!! 1) (lit 0 1) = true) as Hgt
    by (vm_compute; reflexivity).
  assert (zero_vec (forces Binary32.coincident !!! 1)) as Hz
    by (split; vm_compute; reflexivity).
  assert (is_finite (inv_mass Binary32.coincident !!! 1) = true) as Him
    by (vm_compute; reflexivity).
  assert (is_finite (dt (weightless (F := Binary32.f32) 2)) = true) as Hdt
    by (vm_compute; reflexivity).
  assert (absorbs_zero (vx (velocities Binary32.coincident !!! 1))) as Hax
    by (vm_compute; reflexivity).
  assert (absorbs_zero (vy (velocities Binary32.coincident !!! 1))) as Hay
    by (vm_compute; reflexivity).
  exact (conj Hs (conj Hj (conj Hgt (conj Hz (conj Him (conj Hdt (conj Hax
    (conj Hay
      (integrate_without_force (ZeroLaws0 := f32_zero_laws) (weightless 2)
         Binary32.coincident 1 Hs Hj Hgt Hz Him Hdt Hax Hay))))))))).
Defined.

(** ** A chain of at most one particle *)

(** X5: with [n_particles <= 1] the segment loop does not run and the only
    particle is pinned: once initialized, a substep returns the very same
    fields, force buffer included, so the rope never moves. *)
Theorem single_particle_static {F : Type} `{ScalarLaws F} (c : Constants F) :
  n_particles c ≤ 1 →
  substep c (initialize_particles c (fresh_state c)) =
    initialize_particles c (fresh_state c).
Proof.
  intros Hn. set (st0 := initialize_particles c (fresh_state c)).
  pose proof (initialize_particles_pins c) as Hpin. fold st0 in Hpin.
  pose proof (same_shape_shaped c _ _
                (initialize_particles_shape c (fresh_state c))
                (fresh_state_shaped c)) as Hs0. fold st0 in Hs0.
  pose proof (same_shape_shaped c _ _ (compute_forces_shape c st0) Hs0) as Hs1.
  destruct (compute_forces_same c st0) as (Hp&Hv&Hm).
  destruct (integrate_loop_frame c (compute_forces c st0) (n_particles c))
    as [Hf' Hm'].
  assert (∀ k, ¬ (k < n_particles c ∧
                  fgt (inv_mass (compute_forces c st0) !!! k) (lit 0 1) = true))
    as Hnone.
  { intros k [Hk Hgt]. assert (k = 0) as -> by lia.
    rewrite Hm, Hpin in Hgt. discriminate. }
  unfold substep. apply State_eq.
  - rewrite <- Hp. apply list_eq. intros k.
    destruct (integrate_lookup c _ k Hs1) as [_ ->].
    rewrite decide_False by apply Hnone. reflexivity.
  - rewrite <- Hv. apply list_eq. intros k.
    destruct (integrate_lookup c _ k Hs1) as [-> _].
    rewrite decide_False by apply Hnone. reflexivity.
  - unfold integrate. rewrite Hf'. apply list_eq. intros j.
    pose proof Hs0 as (_&_&Hl0&_). pose proof Hs1 as (_&_&Hl1&_).
    destruct (decide (j < n_particles c)) as [Hj|Hj].
    + assert (j = 0) as -> by lia.
      rewrite !list_lookup_lookup_total_lt by lia. f_equal.
      rewrite compute_forces_lookup by (assumption || lia).
      rewrite decide_False by lia. rewrite decide_False by lia.
      unfold gravity_term. rewrite Hpin.
      unfold st0, initialize_particles. rewrite init_loop_forces.
      unfold fresh_state; simpl.
      rewrite lookup_total_replicate_2 by lia. reflexivity.
    + rewrite !lookup_ge_None_2 by lia. reflexivity.
  - unfold integrate. congruence.
Qed.

Lemma single_particle_static_witness :
  n_particles (resized 1 (source_constants (F := Binary32.f32))) ≤ 1 ∧
  substep (resized 1 (source_constants (F := Binary32.f32)))
    (initialize_particles (resized 1 source_constants)
       (fresh_state (resized 1 source_constants))) =
  initialize_particles (resized 1 source_constants)
    (fresh_state (resized 1 source_constants)).
Proof.
  assert (n_particles (resized 1 (source_constants (F := Binary32.f32))) ≤ 1)
    as Hn by (vm_compute; lia).
  exact (conj Hn
    (single_particle_static (H0 := f32_laws) (resized 1 source_constants) Hn)).
Defined.

(** ** Keys, quitting and the trace of [main] *)

Section Session.
Context {F : Type} `{Scalar F}.
Variable c : Constants F.

Lemma frame_flags (w : World F) (events : list Key) :
  pause (frame c w events) = pause (foldl handle_event w events) ∧
  running (frame c w events) = running (foldl handle_event w events).
Proof.
  unfold frame. destruct (pause (foldl handle_event w events)) eqn:Hp;
    simpl negb; cbv iota.
  - split; [exact Hp|reflexivity].
  - destruct (substep_loop c (foldl handle_event w events) 10) as (_&_&->&->).
    split; [exact Hp|reflexivity].
Qed.

Lemma main_loop_stopped (w : World F) (frames : list (list Key)) :
  running w = false → main_loop c w frames = w.
Proof. intros Hr. destruct frames; simpl; [|rewrite Hr]; reflexivity. Qed.

(** What a frame adds to the trace and to the fields: nothing, or ten
    pairs of launches and ten substeps. *)
Lemma frame_progress (w : World F) (events : list Key) :
  ∃ m, m ≤ 1 ∧
    launches (frame c w events) =
      launches w ++ concat (replicate (10 * m) [ComputeForces; Integrate]) ∧
    sim (frame c w events) = Nat.iter (10 * m) (substep c) (sim w).
Proof.
  unfold frame. destruct (handle_events_sim w events) as [Hs Hl].
  destruct (pause (foldl handle_event w events)); simpl negb; cbv iota.
  - exists 0. rewrite Hs, Hl. simpl. rewrite app_nil_r.
    split; [lia|]. split; reflexivity.
  - exists 1.
    destruct (substep_loop c (foldl handle_event w events) 10) as (Hs'&Hl'&_).
    rewrite Hs', Hl', Hs, Hl. split; [lia|]. split; reflexivity.
Qed.

Lemma main_loop_progress (w : World F) (frames : list (list Key)) :
  ∃ m, m ≤ length frames ∧
    launches (main_loop c w frames) =
      launches w ++ concat (replicate (10 * m) [ComputeForces; Integrate]) ∧
    sim (main_loop c w frames) = Nat.iter (10 * m) (substep c) (sim w).
Proof.
  revert w. induction frames as [|events frames IH]; intros w.
  - exists 0. simpl. rewrite app_nil_r. split; [lia|]. split; reflexivity.
  - simpl main_loop. simpl length. destruct (running w).
    + destruct (frame_progress w events) as (m1&Hm1&Hl1&Hs1).
      destruct (IH (frame c w events)) as (m2&Hm2&Hl2&Hs2).
      exists (m2 + m1). split; [lia|].
      rewrite Hl2, Hs2, Hl1, Hs1. split.
      * replace (10 * (m2 + m1)) with (10 * m1 + 10 * m2) by lia.
        rewrite replicate_add, concat_app, app_assoc. reflexivity.
      * replace (10 * (m2 + m1)) with (10 * m2 + 10 * m1) by lia.
        apply eq_sym, Nat.iter_add.
    + exists 0. simpl. rewrite app_nil_r. split; [lia|]. split; reflexivity.
Qed.
End Session.

Lemma escape_among_later (e : Key) (events : list Key) :
  e ≠ ESCAPE → ESCAPE ∈ e :: events ↔ ESCAPE ∈ events.
Proof.
  intros He. rewrite elem_of_cons. split; [|right; assumption].
  intros [Heq|Hin]; [|exact Hin]. symmetry in Heq. contradiction.
Qed.

(** The effect of the key presses of a frame on [main]'s state. *)
Lemma handle_events_effect {F : Type} (w : World F) (events : list Key) :
  pause (foldl handle_event w events) =
    (if Nat.even (space_presses events) then pause w else negb (pause w)) ∧
  running (foldl handle_event w events) =
    (if decide (ESCAPE ∈ events) then false else running w) ∧
  sim (foldl handle_event w events) = sim w.
Proof.
  revert w. induction events as [|e events IH]; intros w.
  - cbn [foldl]. rewrite decide_False by (apply not_elem_of_nil).
    split; [reflexivity|]. split; reflexivity.
  - cbn [foldl]. destruct (IH (handle_event w e)) as (Hp&Hr&Hs).
    rewrite Hp, Hr, Hs. clear IH Hp Hr Hs. unfold space_presses.
    destruct e.
    + rewrite filter_cons_False by discriminate.
      rewrite (decide_True (P := ESCAPE ∈ ESCAPE :: events))
        by (apply elem_of_cons; left; reflexivity).
      simpl. split; [reflexivity|]. split; [|reflexivity].
      destruct (decide (ESCAPE ∈ events)); reflexivity.
    + rewrite filter_cons_True by reflexivity. cbn [length].
      rewrite Nat.even_succ, <- Nat.negb_even.
      assert (SPACE ≠ ESCAPE) as Hne by discriminate.
      rewrite (decide_ext _ _ false (running w)
                 (escape_among_later SPACE events Hne)).
      simpl. split; [|split; reflexivity].
      destruct (Nat.even _), (pause w); reflexivity.
    + rewrite filter_cons_False by discriminate.
      assert (OTHER_KEY ≠ ESCAPE) as Hne by discriminate.
      rewrite (decide_ext _ _ false (running w)
                 (escape_among_later OTHER_KEY events Hne)).
      simpl. split; [reflexivity|]. split; reflexivity.
Qed.

(** X6: the key presses of a frame act on the two flags of [main] only:
    [pause] is flipped once per press of the space bar, so it is as before
    after an even number of presses, and [window.running] is cleared by an
    ESCAPE among them and never set again.  The fields are not touched. *)
Theorem handle_events_flags {F : Type} (w : World F) (events : list Key) :
  pause (foldl handle_event w events) =
    (if Nat.even (space_presses events) then pause w else negb (pause w)) ∧
  running (foldl handle_event w events) =
    (if decide (ESCAPE ∈ events) then false else running w) ∧
  sim (foldl handle_event w events) = sim w.
Proof. exact (handle_events_effect w events). Qed.

(** X7: when ESCAPE is among the key presses of a frame, that frame is still
    carried out to its end, its substeps included unless [pause] is set, and
    it is the last one: the frames after it are not run. *)
Theorem escape_ends_main {F : Type} `{Scalar F}
    (c : Constants F) (w : World F) (events : list Key)
    (frames : list (list Key)) :
  running w = true →
  ESCAPE ∈ events →
  main_loop c w (events :: frames) = frame c w events ∧
  running (frame c w events) = false.
Proof.
  intros Hr He.
  assert (running (frame c w events) = false) as Hstop.
  { destruct (frame_flags c w events) as [_ ->].
    destruct (handle_events_effect w events) as (_&->&_).
    rewrite decide_True by exact He. reflexivity. }
  split; [|exact Hstop].
  simpl. rewrite Hr. apply main_loop_stopped. exact Hstop.
Qed.

Lemma escape_ends_main_witness :
  running (main_start Binary32.pair_constants) = true ∧
  ESCAPE ∈ [SPACE; ESCAPE] ∧
  main_loop Binary32.pair_constants (main_start Binary32.pair_constants)
    ([SPACE; ESCAPE] :: [[]; [SPACE]]) =
  frame Binary32.pair_constants (main_start Binary32.pair_constants)
    [SPACE; ESCAPE].
Proof.
  assert (running (main_start Binary32.pair_constants) = true) as Hr
    by reflexivity.
  assert (ESCAPE ∈ [SPACE; ESCAPE]) as He
    by (apply elem_of_cons; right; apply elem_of_cons; left; reflexivity).
  destruct (escape_ends_main Binary32.pair_constants
              (main_start Binary32.pair_constants) [SPACE; ESCAPE]
              [[]; [SPACE]] Hr He) as (Hc&_).
  exact (conj Hr (conj He Hc)).
Defined.

(** X8: a session can be cut anywhere: running [main]'s loop over the frames
    of a session is running it over the first frames and then, from where
    that ends, over the rest. *)
Theorem main_loop_app {F : Type} `{Scalar F}
    (c : Constants F) (w : World F) (frames1 frames2 : list (list Key)) :
  main_loop c w (frames1 ++ frames2) =
    main_loop c (main_loop c w frames1) frames2.
Proof.
  revert w. induction frames1 as [|events frames1 IH]; intros w; [reflexivity|].
  simpl. destruct (running w) eqn:Hr; [apply IH|].
  symmetry. apply main_loop_stopped. exact Hr.
Qed.

(** X9: whatever keys are pressed, [main] launches [initialize_particles]
    once, first, and then only pairs [compute_forces], [integrate], ten per
    frame that is carried out without [pause]; the fields it ends with are
    the initialized fields after as many substeps as there are pairs. *)
Theorem main_trace {F : Type} `{Scalar F}
    (c : Constants F) (frames : list (list Key)) :
  ∃ m, m ≤ length frames ∧
    launches (main c frames) =
      InitializeParticles ::
        concat (replicate (10 * m) [ComputeForces; Integrate]) ∧
    sim (main c frames) =
      Nat.iter (10 * m) (substep c) (initialize_particles c (fresh_state c)).
Proof.
  destruct (main_loop_progress c (main_start c) frames) as (m&Hm&Hl&Hs).
  exists m. split; [exact Hm|]. split; [exact Hl|exact Hs].
Qed.

(** ** The forces in exact arithmetic *)

Lemma Vec_eq {F : Type} (a b : Vec2 F) : vx a = vx b → vy a = vy b → a = b.
Proof. destruct a, b; simpl; intros; subst; reflexivity. Qed.

(** The accumulators as the segment loop finds them. *)
Lemma forces_before_segments {F : Type} `{Scalar F}
    (c : Constants F) (st : State F) :
  shaped c st →
  forces (foldl (gravity_body c)
            (foldl clear_body st (seq 0 (n_particles c)))
            (seq 0 (n_particles c))) =
    gravity_term c st <$> seq 0 (n_particles c).
Proof.
  intros (_&_&Hf&_).
  set (st1 := foldl clear_body st (seq 0 (n_particles c))).
  pose proof (loop_shape clear_body st (n_particles c) clear_body_shape)
    as (_&_&Hl1&_). fold st1 in Hl1.
  pose proof (loop_shape (gravity_body c) st1 (n_particles c)
                (gravity_body_shape c)) as (_&_&Hl2&_).
  pose proof (loop_same_particles clear_body st (n_particles c) clear_body_same)
    as (_&_&Hm1). fold st1 in Hm1.
  apply list_eq. intros j. rewrite list_lookup_fmap.
  destruct (decide (j < n_particles c)) as [Hj|Hj].
  - rewrite lookup_seq_lt by lia. simpl.
    rewrite list_lookup_lookup_total_lt by lia. f_equal.
    rewrite gravity_loop_lookup by lia. rewrite decide_True by lia.
    unfold st1 at 2 3. rewrite clear_loop_lookup by lia.
    rewrite decide_True by lia. rewrite Hm1. reflexivity.
  - rewrite lookup_seq_ge by lia. simpl. apply lookup_ge_None_2. lia.
Qed.

Section RealForces.
Variable c : Constants R.
Local Open Scope R_scope.

Lemma vsum_insert (l : list (Vec2 R)) (i : nat) (x : Vec2 R) :
  (i < length l)%nat →
  vsum (<[i := x]> l) = vadd (vsub (vsum l) (l !!! i)) x.
Proof.
  revert i. induction l as [|a l IH]; intros i Hi; simpl in Hi; [lia|].
  destruct i as [|i].
  - apply Vec_eq; simpl; lra.
  - change (<[S i := x]> (a :: l)) with (a :: <[i := x]> l).
    change ((a :: l) !!! S i) with (l !!! i).
    change (vsum (a :: <[i := x]> l)) with (vadd a (vsum (<[i := x]> l))).
    rewrite IH by lia. apply Vec_eq; simpl; lra.
Qed.

Lemma vsum_forces_add (st : State R) (i : nat) (v : Vec2 R) :
  (i < length (forces st))%nat →
  vsum (forces (forces_add i v st)) = vadd (vsum (forces st)) v.
Proof.
  intros Hi. unfold forces_add; simpl. rewrite vsum_insert by exact Hi.
  apply Vec_eq; simpl; lra.
Qed.

Lemma vsum_forces_sub (st : State R) (i : nat) (v : Vec2 R) :
  (i < length (forces st))%nat →
  vsum (forces (forces_sub i v st)) = vsub (vsum (forces st)) v.
Proof.
  intros Hi. unfold forces_sub; simpl. rewrite vsum_insert by exact Hi.
  apply Vec_eq; simpl; lra.
Qed.

(** One iteration of the segment loop leaves the sum of the accumulators
    as it is. *)
Lemma segment_body_vsum (st : State R) (i : nat) :
  (i + 1 < length (forces st))%nat →
  vsum (forces (segment_body c st i)) = vsum (forces st).
Proof.
  intros Hi. unfold segment_body. destruct (fgt _ _); [|reflexivity].
  rewrite vsum_forces_sub by (simpl; rewrite !length_insert; lia).
  rewrite vsum_forces_add by (simpl; rewrite !length_insert; lia).
  rewrite vsum_forces_sub by (simpl; rewrite !length_insert; lia).
  rewrite vsum_forces_add by lia.
  apply Vec_eq; simpl; lra.
Qed.

Lemma segment_loop_vsum (st : State R) (m : nat) :
  (m ≤ length (forces st) - 1)%nat →
  vsum (forces (foldl (segment_body c) st (seq 0 m))) = vsum (forces st).
Proof.
  intros Hm. induction m as [|m IH]; [reflexivity|].
  rewrite foldl_seq_S.
  pose proof (loop_shape (segment_body c) st m (segment_body_shape c))
    as (_&_&Hl&_).
  rewrite segment_body_vsum by lia. apply IH. lia.
Qed.

(** Behind the guard the length is positive and its square is the squared
    distance. *)
Lemma guarded_length (st : State R) (i : nat) :
  fgt (current_length st i) (lit 1 1000000) = true →
  0 < current_length st i ∧
  current_length st i * current_length st i =
    vx (dist_vec st i) * vx (dist_vec st i) +
    vy (dist_vec st i) * vy (dist_vec st i).
Proof.
  unfold current_length, norm; simpl. unfold RealScalar.R_gt.
  destruct (Rlt_dec _ _) as [Hlt|]; [intros _|discriminate].
  split; [eapply Rlt_trans; [|exact Hlt]; lra|].
  apply sqrt_sqrt. apply Rplus_le_le_0_compat; apply Rle_0_sqr.
Qed.
End RealForces.

(** X10: in exact arithmetic the spring and damping forces cancel in the
    sum over the rope: after the force pass the accumulators add up to the
    gravity terms alone. *)
Theorem net_force_is_gravity (c : Constants R) (st : State R) :
  shaped c st →
  vsum (forces (compute_forces c st)) =
    vsum (gravity_term c st <$> seq 0 (n_particles c)).
Proof.
  intros Hs. rewrite <- (forces_before_segments c st Hs).
  unfold compute_forces. apply segment_loop_vsum.
  rewrite (forces_before_segments c st Hs), length_fmap, length_seq.
  unfold n_segments. lia.
Qed.

Lemma net_force_is_gravity_witness :
  shaped RealRope.pair_constants_real RealRope.stretched_real ∧
  vsum (forces (compute_forces RealRope.pair_constants_real
                  RealRope.stretched_real)) =
    vsum (gravity_term RealRope.pair_constants_real RealRope.stretched_real
            <$> seq 0 (n_particles RealRope.pair_constants_real)).
Proof.
  assert (shaped RealRope.pair_constants_real RealRope.stretched_real) as Hs
    by (split; [|split; [|split]]; reflexivity).
  exact (conj Hs (net_force_is_gravity _ _ Hs)).
Defined.

Section RealSegment.
Variable c : Constants R.
Local Open Scope R_scope.

Lemma spring_force_dot (st : State R) (i : nat) :
  fgt (current_length st i) (lit 1 1000000) = true →
  dot (spring_force_vec c st i) (dist_vec st i) =
    stiffness c * (current_length st i - rest_length c) * current_length st i.
Proof.
  intros Hg. destruct (guarded_length st i Hg) as [Hpos Hsq].
  unfold spring_force_vec, direction_vec, dot, smul, vdiv.
  set (L := current_length st i) in *. set (d := dist_vec st i) in *.
  clearbody L d. destruct d as [dx dy]. simpl in *.
  transitivity (stiffness c * (L - rest_length c) * ((dx * dx + dy * dy) / L));
    [field; lra|].
  rewrite <- Hsq. field. lra.
Qed.

Lemma direction_norm (st : State R) (i : nat) :
  fgt (current_length st i) (lit 1 1000000) = true →
  norm (direction_vec st i) = 1.
Proof.
  intros Hg. destruct (guarded_length st i Hg) as [Hpos Hsq].
  unfold direction_vec, norm, vdiv.
  set (L := current_length st i) in *. set (d := dist_vec st i) in *.
  clearbody L d. destruct d as [dx dy]. simpl in *.
  replace (dx / L * (dx / L) + dy / L * (dy / L))
    with ((dx * dx + dy * dy) / (L * L)) by (field; lra).
  rewrite <- Hsq. replace (L * L / (L * L)) with 1 by (field; lra).
  apply sqrt_1.
Qed.

Lemma damping_force_dot (st : State R) (i : nat) :
  dot (damping_force_vec c st i)
      (vsub (velocities st !!! (i + 1)%nat) (velocities st !!! i)) =
    damping c *
      Rsqr (dot (vsub (velocities st !!! (i + 1)%nat) (velocities st !!! i))
                (direction_vec st i)).
Proof.
  unfold damping_force_vec, dot, smul, vsub, Rsqr.
  destruct (direction_vec st i) as [ux uy]. simpl. ring.
Qed.

Lemma stretched_real_length : current_length RealRope.stretched_real 0 = 1.
Proof.
  unfold current_length, dist_vec, norm, vsub; simpl.
  replace ((1 / 1 - 0 / 1) * (1 / 1 - 0 / 1) +
           (0 / 1 - 0 / 1) * (0 / 1 - 0 / 1)) with (1 * 1) by lra.
  apply sqrt_square. lra.
Qed.

Lemma stretched_real_guard :
  fgt (current_length RealRope.stretched_real 0) (lit 1 1000000) = true.
Proof.
  rewrite stretched_real_length. simpl. unfold RealScalar.R_gt.
  destruct (Rlt_dec _ _) as [|Hn]; [reflexivity|]. exfalso. apply Hn. lra.
Qed.
End RealSegment.

(** X11: in exact arithmetic the spring force is a restoring force.  Its
    component along the segment is [stiffness * (L - rest_length) * L]: with
    a positive stiffness the force added to particle [i] points towards
    particle [i+1] when the segment is stretched and away from it when the
    segment is compressed. *)
Theorem spring_force_restoring (c : Constants R) (st : State R) (i : nat) :
  (0 < stiffness c)%R →
  fgt (current_length st i) (lit 1 1000000) = true →
  dot (spring_force_vec c st i) (dist_vec st i) =
    (stiffness c * (current_length st i - rest_length c) *
     current_length st i)%R ∧
  ((rest_length c < current_length st i)%R →
     (0 < dot (spring_force_vec c st i) (dist_vec st i))%R) ∧
  ((current_length st i < rest_length c)%R →
     (dot (spring_force_vec c st i) (dist_vec st i) < 0)%R).
Proof.
  intros Hk Hg. destruct (guarded_length st i Hg) as [Hpos _].
  rewrite (spring_force_dot c st i Hg). split; [reflexivity|]. split; intros HL.
  - apply Rmult_lt_0_compat; [apply Rmult_lt_0_compat|]; lra.
  - rewrite <- (Rmult_0_l (current_length st i)).
    apply Rmult_lt_compat_r; [exact Hpos|].
    rewrite <- (Rmult_0_r (stiffness c)).
    apply Rmult_lt_compat_l; lra.
Qed.

Lemma spring_force_restoring_witness :
  (0 < stiffness RealRope.pair_constants_real)%R ∧
  fgt (current_length RealRope.stretched_real 0) (lit 1 1000000) = true ∧
  dot (spring_force_vec RealRope.pair_constants_real RealRope.stretched_real 0)
      (dist_vec RealRope.stretched_real 0) =
    (stiffness RealRope.pair_constants_real *
     (current_length RealRope.stretched_real 0 -
      rest_length RealRope.pair_constants_real) *
     current_length RealRope.stretched_real 0)%R.
Proof.
  assert (0 < stiffness RealRope.pair_constants_real)%R as Hk
    by (simpl; lra).
  pose proof stretched_real_guard as Hg.
  destruct (spring_force_restoring RealRope.pair_constants_real
              RealRope.stretched_real 0 Hk Hg) as (Hc&_).
  exact (conj Hk (conj Hg Hc)).
Defined.

(** X12: in exact arithmetic the damping force works against the relative
    motion of the two ends of a segment: with a damping coefficient that is
    not negative, the force added to particle [i] has a component along the
    velocity of particle [i+1] relative to particle [i] that is not
    negative; it is [damping * (v_rel . u)^2]. *)
Theorem damping_force_dissipative (c : Constants R) (st : State R) (i : nat) :
  (0 <= damping c)%R →
  (0 <= dot (damping_force_vec c st i)
            (vsub (velocities st !!! (i + 1)%nat) (velocities st !!! i)))%R ∧
  dot (damping_force_vec c st i)
      (vsub (velocities st !!! (i + 1)%nat) (velocities st !!! i)) =
    (damping c *
     Rsqr (dot (vsub (velocities st !!! (i + 1)%nat) (velocities st !!! i))
               (direction_vec st i)))%R.
Proof.
  intros Hd. rewrite (damping_force_dot c st i). split; [|reflexivity].
  apply Rmult_le_pos; [exact Hd|apply Rle_0_sqr].
Qed.

Lemma damping_force_dissipative_witness :
  (0 <= damping RealRope.pair_constants_real)%R ∧
  (0 <= dot (damping_force_vec RealRope.pair_constants_real
               RealRope.stretched_real 0%nat)
            (vsub (velocities RealRope.stretched_real !!! (0 + 1)%nat)
                  (velocities RealRope.stretched_real !!! 0%nat)))%R.
Proof.
  assert (0 <= damping RealRope.pair_constants_real)%R as Hd by (simpl; lra).
  destruct (damping_force_dissipative RealRope.pair_constants_real
              RealRope.stretched_real 0%nat Hd) as (Hc&_).
  exact (conj Hd Hc).
Defined.

(** X13: in exact arithmetic the direction computed behind the guard is a
    unit vector, so the magnitudes of the two force vectors are the
    magnitudes the source computes: [norm (dist_vec / current_length) = 1]. *)
Theorem direction_is_unit (st : State R) (i : nat) :
  fgt (current_length st i) (lit 1 1000000) = true →
  norm (direction_vec st i) = 1%R.
Proof. apply direction_norm. Qed.

Lemma direction_is_unit_witness :
  fgt (current_length RealRope.stretched_real 0) (lit 1 1000000) = true ∧
  norm (direction_vec RealRope.stretched_real 0) = 1%R.
Proof.
  exact (conj stretched_real_guard
           (direction_is_unit RealRope.stretched_real 0 stretched_real_guard)).
Defined.

(** X14: in exact arithmetic [initialize_particles] lays the rope out at
    rest length: every segment of the initialized rope points along the
    horizontal axis and is [rest_length] long, for a rest length that is not
    negative.  (In binary32 the sums [0.1 + i * 0.1] are rounded and some
    segments are a little off.) *)
Theorem initial_rope_at_rest_length (c : Constants R) (st : State R) (i : nat) :
  shaped c st →
  i + 1 < n_particles c →
  (0 <= rest_length c)%R →
  dist_vec (initialize_particles c st) i = Vec (rest_length c) 0%R ∧
  current_length (initialize_particles c st) i = rest_length c.
Proof.
  intros (Hp&Hv&_&Hm) Hi Hr.
  destruct (init_loop_lookup c st (n_particles c) i) as (Hpi&_); try lia.
  destruct (init_loop_lookup c st (n_particles c) (i + 1)) as (Hpi'&_); try lia.
  assert (dist_vec (initialize_particles c st) i = Vec (rest_length c) 0%R)
    as Hd.
  { unfold dist_vec, initialize_particles.
    rewrite (list_lookup_total_correct _ _ _ Hpi),
      (list_lookup_total_correct _ _ _ Hpi').
    unfold of_int. apply Vec_eq; simpl.
    - rewrite Nat2Z.inj_add, plus_IZR. simpl. field.
    - lra. }
  split; [exact Hd|].
  unfold current_length, norm. rewrite Hd. simpl.
  replace (rest_length c * rest_length c + 0 * 0)%R
    with (rest_length c * rest_length c)%R by lra.
  apply sqrt_square. exact Hr.
Qed.

Lemma initial_rope_at_rest_length_witness :
  shaped source_constants (fresh_state (source_constants (F := R))) ∧
  0 + 1 < n_particles (source_constants (F := R)) ∧
  (0 <= rest_length (source_constants (F := R)))%R ∧
  current_length
    (initialize_particles source_constants
       (fresh_state (source_constants (F := R)))) 0 =
    rest_length (source_constants (F := R)).
Proof.
  pose proof (fresh_state_shaped (source_constants (F := R))) as Hs.
  assert (0 + 1 < n_particles (source_constants (F := R))) as Hi
    by (simpl; lia).
  assert (0 <= rest_length (source_constants (F := R)))%R as Hr
    by (simpl; lra).
  destruct (initial_rope_at_rest_length source_constants _ 0 Hs Hi Hr)
    as (_&Hc).
  exact (conj Hs (conj Hi (conj Hr Hc))).
Defined.

(** In binary32 the second segment of the initialized rope of the source is
    not [rest_length] long. *)
Lemma initial_rope_binary32_off :
  current_length Binary32.rope_initial 1 ≠
    rest_length (source_constants (F := Binary32.f32)).
Proof. vm_compute. discriminate. Qed.
